(** * The playtest simulation of game-craft-ai

    A shallow embedding of [components/GameSimulation.tsx] (with the
    records of [types.ts]): the zig-zag board layout, the procedural
    audio cues, the roll / card-draw / reset handlers of the turn state
    machine, and the properties the specification states about them.
    Further on: the roll taken apart at its animation delay and run in
    an event loop with the timers of the browser, the cues as lists of
    Web Audio operations, what the component draws, and the pure parts
    of [services/geminiService.ts] and [components/CardPreview.tsx].

    Conventions of the embedding.
    - Integer-valued JavaScript numbers (positions, turns, indices) are
      [Z]; the other numbers (coordinates, times, frequencies, the results
      of [Math.random()]) are exact rationals [Q], so the rounding of
      IEEE doubles is abstracted away.
    - Strings are [string] (byte strings, UTF-8 for the emoji of the log).
    - [null] and [undefined] are both [None]: the component only tests
      such values for truthiness.
    - React state is a store threaded through a state-and-exception monad;
      an updater [setGameState(prev => ...)] is applied to the store, and
      the values a handler closes over ([gameState], [isRolling]) are
      explicit arguments of the handler. *)

From Stdlib Require Import ZArith QArith Qround Qfield String Ascii List Bool.
From Stdlib Require Import Lia.
From Stdlib Require Import DecimalString.
Import ListNotations.
Local Open Scope string_scope.
Local Open Scope Z_scope.

(** ** JavaScript primitives the component relies on *)

Module Js.

(** [`${n}`] for an integer-valued number. *)
Definition show (n : Z) : string := NilZero.string_of_int (Z.to_int n).

(** [`${s}`] for a string that may be [undefined]. *)
Definition showOpt (s : option string) : string :=
  match s with
  | Some v => v
  | None => "undefined"
  end.

(** [a % b]: the remainder has the sign of the dividend, and [a % 0] is
    [NaN] (here [None]). *)
Definition rem (a b : Z) : option Z :=
  if b =? 0 then None else Some (Z.rem a b).

(** [arr[k]]: [undefined] outside of the array and at [NaN]. *)
Definition at_ {A : Type} (arr : list A) (k : option Z) : option A :=
  match k with
  | Some z => if z <? 0 then None else nth_error arr (Z.to_nat z)
  | None => None
  end.

(** [a < b] on numbers. *)
Definition ltb (a b : Q) : bool := negb (Qle_bool b a).

(** [Math.floor(u * n)] for [u] a result of [Math.random()], with the
    product taken exactly. The product of two doubles is rounded, so
    that at some [u] the program gets the index above this one; both
    are at least 0 and below [n] for [u] in [0, 1), and they are the
    same where the product is not next to a whole number. *)
Definition floorMul (u : Q) (n : Z) : Z := Qfloor (u * inject_Z n).

(** [c.toLowerCase()] on one byte: only the ASCII capitals move. No
    character outside of ASCII lower-cases to one of the letters of
    the needle searched below, and the bytes of a multi-byte UTF-8
    character are all above 127. *)
Definition lowerAscii (c : ascii) : ascii :=
  let n := nat_of_ascii c in
  if (65 <=? n)%nat && (n <=? 90)%nat then ascii_of_nat (n + 32) else c.

Fixpoint toLowerCase (s : string) : string :=
  match s with
  | EmptyString => EmptyString
  | String c s' => String (lowerAscii c) (toLowerCase s')
  end.

(** [s.includes(needle)]. *)
Fixpoint includes (s needle : string) : bool :=
  prefix needle s ||
  match s with
  | EmptyString => false
  | String _ s' => includes s' needle
  end.

(** The double-quote character of the template literals. *)
Definition dquote : string := String (ascii_of_nat 34) EmptyString.

End Js.

(** ** [types.ts] *)

Record TileType := mkTileType {
  name : string;
  effect : string;
  color : string
}.

Record CardType := mkCardType {
  type : string;
  description : string;
  examples : list string
}.

Record Source := mkSource {
  source_title : string;
  uri : string
}.

Record GameDesign := mkGameDesign {
  title : string;
  overview : string;
  goal : string;
  story : string;
  boardDesign : string;
  tileTypes : list TileType;
  components : list string;
  cardTypes : list CardType;
  rules : list string;
  gameplay : list string;
  winningCondition : string;
  reward : string;
  learningOutcomes : list string;
  sources : option (list Source)
}.

(** ** The state of the simulation *)

(** [drawnCard: { type, content }]; [content] is [examples[k]], which is
    [undefined] when the example list is empty. *)
Record DrawnCard := mkDrawnCard {
  drawn_type : string;
  content : option string
}.

Record GameState := mkGameState {
  playerPosition : Z;
  log : list string;
  turn : Z;
  isGameOver : bool;
  currentEffect : option string;
  drawnCard : option DrawnCard
}.

Definition TOTAL_SPACES : Z := 24.

(** The argument of [useState<GameState>]. *)
Definition initialGameState : GameState :=
  {| playerPosition := 0;
     log := ["Welcome to the Playtest! Roll the dice to begin."];
     turn := 1;
     isGameOver := false;
     currentEffect := None;
     drawnCard := None |}.

(** ** The board: [spaces] *)

Inductive SpaceType := START | FINISH | NORMAL.

Record BoardSpace := mkBoardSpace {
  x : Q;
  y : Q;
  space_type : SpaceType;
  tileDetails : option TileType
}.

Definition rows : Z := 4.
Definition cols : Z := 6.

(** The object pushed by one iteration of the loop. *)
Definition space (design : GameDesign) (i : Z) : BoardSpace :=
  let row := Qfloor (inject_Z i / inject_Z cols) in
  let col := Z.rem i cols in
  let actualCol := if Z.rem row 2 =? 0 then col else cols - 1 - col in
  {| x := (inject_Z actualCol / inject_Z (cols - 1)) * 80 + 10;
     y := 90 - (inject_Z row / inject_Z (rows - 1)) * 80;
     space_type :=
       if i =? 0 then START
       else if i =? TOTAL_SPACES - 1 then FINISH else NORMAL;
     tileDetails :=
       if (i =? 0) || (i =? TOTAL_SPACES - 1) then None
       else Js.at_ (tileTypes design)
                   (Js.rem i (Z.of_nat (length (tileTypes design)))) |}.

(** [for (let i = 0; i < TOTAL_SPACES; i++) path.push(...)], with the
    number of iterations still to run as the structural argument. *)
Fixpoint spaces_loop (design : GameDesign) (todo : nat) (i : Z)
    (path : list BoardSpace) : list BoardSpace :=
  match todo with
  | O => path
  | S todo' => spaces_loop design todo' (i + 1) (path ++ [space design i])
  end.

Definition spaces (design : GameDesign) : list BoardSpace :=
  spaces_loop design (Z.to_nat TOTAL_SPACES) 0 [].

(** ** Handlers as programs: state and exceptions *)

Inductive Completion (A : Type) :=
| Normal (a : A)
| Thrown (e : string).
Arguments Normal {A} a.
Arguments Thrown {A} e.

(** A program over a store [S]: it completes normally or throws, and the
    writes made before a throw stay in the store. *)
Definition Prog (S A : Type) : Type := S -> Completion A * S.

Definition ret {S A : Type} (a : A) : Prog S A := fun s => (Normal a, s).

Definition throw {S A : Type} (e : string) : Prog S A :=
  fun s => (Thrown e, s).

Definition bind {S A B : Type} (m : Prog S A) (k : A -> Prog S B)
    : Prog S B :=
  fun s =>
    match m s with
    | (Normal a, s') => k a s'
    | (Thrown e, s') => (Thrown e, s')
    end.

(** [try { m } catch (e) { handler(e) }]. *)
Definition tryCatch {S A : Type} (m : Prog S A) (handler : string -> Prog S A)
    : Prog S A :=
  fun s =>
    match m s with
    | (Normal a, s') => (Normal a, s')
    | (Thrown e, s') => handler e s'
    end.

Definition when {S : Type} (b : bool) (m : Prog S unit) : Prog S unit :=
  if b then m else ret tt.

Declare Scope prog_scope.
Delimit Scope prog_scope with prog.
Notation "v <- m ;; k" := (bind m (fun v => k))
  (at level 61, m at next level, right associativity) : prog_scope.
Notation "m ;; k" := (bind m (fun _ => k))
  (at level 61, right associativity) : prog_scope.
Local Open Scope prog_scope.

(** [arr.forEach((v, i) => body(v, i))], with [i] counted from [from]. *)
Fixpoint forEach {S A : Type} (body : A -> Z -> Prog S unit) (arr : list A)
    (from : Z) : Prog S unit :=
  match arr with
  | [] => ret tt
  | v :: arr' => body v from ;; forEach body arr' (from + 1)
  end.

(** ** The audio device and [playSfx] *)

Inductive OscillatorType := sine | square | sawtooth | triangle.

Inductive AudioParam := frequency | gain.

(** The Web Audio operations [playSfx] performs; each one may throw. *)
Inductive AudioCall :=
| newAudioContext
| createOscillator
| createGain
| connectOscToGain
| connectGainToDestination
| setOscType (t : OscillatorType)
| setValueAtTime (p : AudioParam) (value time : Q)
| exponentialRampToValueAtTime (p : AudioParam) (value time : Q)
| linearRampToValueAtTime (p : AudioParam) (value time : Q)
| start (time : Q)
| stop (time : Q).

(** The browser as [playSfx] sees it: whether [window.AudioContext] (or
    its webkit variant) exists, the clock of a fresh context, and which
    operation throws after which history of operations. *)
Record AudioEnv := mkAudioEnv {
  hasAudioContext : bool;
  currentTime : Q;
  throws : list AudioCall -> AudioCall -> bool
}.

(** What [playSfx] can write to: the operations done so far, oldest
    first, and the lines of [console.error]. *)
Record Device := mkDevice {
  calls : list AudioCall;
  console : list string
}.

Inductive SfxType := sfx_roll | sfx_move | sfx_card | sfx_win | sfx_tile.

Section Audio.

Variable env : AudioEnv.

Definition call (c : AudioCall) : Prog Device unit :=
  fun d =>
    if throws env (calls d) c
    then (Thrown "DOMException", d)
    else (Normal tt, {| calls := calls d ++ [c]; console := console d |}).

Definition console_error (msg e : string) : Prog Device unit :=
  fun d =>
    (Normal tt,
     {| calls := calls d; console := console d ++ [msg ++ " " ++ e] |}).

Definition createOsc (t : OscillatorType) (freq startTime duration vol : Q)
    : Prog Device unit :=
  call createOscillator ;;
  call createGain ;;
  call connectOscToGain ;;
  call connectGainToDestination ;;
  call (setOscType t) ;;
  call (setValueAtTime frequency freq startTime) ;;
  call (setValueAtTime gain vol startTime) ;;
  call (exponentialRampToValueAtTime gain 0.01 (startTime + duration)) ;;
  call (start startTime) ;;
  call (stop (startTime + duration)).

(** The body of the [try] block. *)
Definition playSfx_try (t : SfxType) : Prog Device unit :=
  if negb (hasAudioContext env) then ret tt
  else
    call newAudioContext ;;
    let now := currentTime env in
    match t with
    | sfx_roll =>
        createOsc square 150 now 0.1 0.1 ;;
        createOsc square 120 (now + 0.08) 0.1 0.1 ;;
        createOsc square 100 (now + 0.16) 0.2 0.08
    | sfx_move =>
        call createOscillator ;;
        call createGain ;;
        call connectOscToGain ;;
        call connectGainToDestination ;;
        call (setOscType sine) ;;
        call (setValueAtTime frequency 600 now) ;;
        call (exponentialRampToValueAtTime frequency 100 (now + 0.15)) ;;
        call (setValueAtTime gain 0.15 now) ;;
        call (exponentialRampToValueAtTime gain 0.01 (now + 0.15)) ;;
        call (start now) ;;
        call (stop (now + 0.15))
    | sfx_card =>
        call createOscillator ;;
        call createGain ;;
        call connectOscToGain ;;
        call connectGainToDestination ;;
        call (setOscType triangle) ;;
        call (setValueAtTime frequency 800 now) ;;
        call (linearRampToValueAtTime frequency 1200 (now + 0.1)) ;;
        call (setValueAtTime gain 0.05 now) ;;
        call (linearRampToValueAtTime gain 0 (now + 0.1)) ;;
        call (start now) ;;
        call (stop (now + 0.1))
    | sfx_tile =>
        createOsc sine 880 now 0.8 0.1
    | sfx_win =>
        forEach
          (fun freq i =>
             createOsc triangle freq (now + inject_Z i * 0.1) 0.6 0.1)
          [523.25; 659.25; 783.99; 1046.50]%Q 0
    end.

Definition playSfx (t : SfxType) : Prog Device unit :=
  tryCatch (playSfx_try t) (console_error "Audio playback failed").

End Audio.

(** ** The component *)

(** The callbacks handed to [setTimeout]. *)
Inductive Callback := cb_drawCard.

(** The store of a mounted [GameSimulation]: its two pieces of React
    state that the handlers write, the pending timers (callback and
    delay, oldest first), and the audio device. *)
Record World := mkWorld {
  w_gameState : GameState;
  w_isRolling : bool;
  w_timers : list (Callback * Z);
  w_device : Device
}.

Definition setGameState (f : GameState -> GameState) : Prog World unit :=
  fun w =>
    (Normal tt,
     {| w_gameState := f (w_gameState w);
        w_isRolling := w_isRolling w;
        w_timers := w_timers w;
        w_device := w_device w |}).

Definition setIsRolling (b : bool) : Prog World unit :=
  fun w =>
    (Normal tt,
     {| w_gameState := w_gameState w;
        w_isRolling := b;
        w_timers := w_timers w;
        w_device := w_device w |}).

Definition setTimeout (cb : Callback) (ms : Z) : Prog World unit :=
  fun w =>
    (Normal tt,
     {| w_gameState := w_gameState w;
        w_isRolling := w_isRolling w;
        w_timers := w_timers w ++ [(cb, ms)];
        w_device := w_device w |}).

(** [await new Promise(r => setTimeout(r, ms))]: the handler is run to
    its end, nothing else is scheduled in between. *)
Definition delay (ms : Z) : Prog World unit := ret tt.

(** A program of the audio device run inside the component. *)
Definition onDevice {A : Type} (m : Prog Device A) : Prog World A :=
  fun w =>
    let (c, d) := m (w_device w) in
    (c,
     {| w_gameState := w_gameState w;
        w_isRolling := w_isRolling w;
        w_timers := w_timers w;
        w_device := d |}).

Section GameSimulation.

Variable design : GameDesign.
Variable env : AudioEnv.
Variable soundEnabled : bool.

Definition addToLog (message : string) : Prog World unit :=
  setGameState (fun prev =>
    {| playerPosition := playerPosition prev;
       log := message :: log prev;
       turn := turn prev;
       isGameOver := isGameOver prev;
       currentEffect := currentEffect prev;
       drawnCard := drawnCard prev |}).

(** [u_type] and [u_example] are the two results of [Math.random()]. *)
Definition drawCard (u_type u_example : Q) : Prog World unit :=
  if Z.of_nat (length (cardTypes design)) =? 0 then ret tt
  else
    when soundEnabled (onDevice (playSfx env sfx_card)) ;;
    match
      Js.at_ (cardTypes design)
        (Some (Js.floorMul u_type (Z.of_nat (length (cardTypes design)))))
    with
    | None => throw "TypeError: randomCardType is undefined"
    | Some randomCardType =>
        let randomExample :=
          Js.at_ (examples randomCardType)
            (Some (Js.floorMul u_example
                     (Z.of_nat (length (examples randomCardType))))) in
        setGameState (fun prev =>
          {| playerPosition := playerPosition prev;
             log := log prev;
             turn := turn prev;
             isGameOver := isGameOver prev;
             currentEffect := currentEffect prev;
             drawnCard :=
               Some {| drawn_type := type randomCardType;
                       content := randomExample |} |}) ;;
        addToLog ("🎴 Drew a " ++ type randomCardType ++ ": " ++ Js.dquote
                  ++ Js.showOpt randomExample ++ Js.dquote)
    end.

(** [gameState] and [isRolling] are the values the handler closed over
    at the render that created it; [u_roll] and [u_card] are the two
    results of [Math.random()]. *)
Definition handleRoll (gameState : GameState) (isRolling : bool)
    (u_roll u_card : Q) : Prog World unit :=
  if isGameOver gameState || isRolling then ret tt
  else
    setIsRolling true ;;
    when soundEnabled (onDevice (playSfx env sfx_roll)) ;;
    setGameState (fun prev =>
      {| playerPosition := playerPosition prev;
         log := log prev;
         turn := turn prev;
         isGameOver := isGameOver prev;
         currentEffect := None;
         drawnCard := None |}) ;;
    delay 600 ;;
    let roll := Js.floorMul u_roll 6 + 1 in
    let newPosition := playerPosition gameState + roll in
    newPosition <-
      (if newPosition >=? TOTAL_SPACES - 1 then
         let newPosition := TOTAL_SPACES - 1 in
         setGameState (fun prev =>
           {| playerPosition := playerPosition prev;
              log := log prev;
              turn := turn prev;
              isGameOver := true;
              currentEffect := currentEffect prev;
              drawnCard := drawnCard prev |}) ;;
         when soundEnabled (onDevice (playSfx env sfx_win)) ;;
         addToLog ("🎲 Rolled a " ++ Js.show roll
                   ++ ". Reached the Finish!") ;;
         addToLog ("🏆 " ++ winningCondition design) ;;
         ret newPosition
       else
         when soundEnabled (onDevice (playSfx env sfx_move)) ;;
         addToLog ("🎲 Rolled a " ++ Js.show roll ++ ". Moved to space "
                   ++ Js.show (newPosition + 1) ++ ".") ;;
         ret newPosition) ;;
    setGameState (fun prev =>
      {| playerPosition := newPosition;
         log := log prev;
         turn := turn prev + 1;
         isGameOver := isGameOver prev;
         currentEffect := currentEffect prev;
         drawnCard := drawnCard prev |}) ;;
    setIsRolling false ;;
    if (newPosition <? TOTAL_SPACES - 1) && (newPosition >? 0) then
      match Js.at_ (spaces design) (Some newPosition) with
      | None => throw "TypeError: spaces[newPosition] is undefined"
      | Some sp =>
          match tileDetails sp with
          | Some tile =>
              setGameState (fun prev =>
                {| playerPosition := playerPosition prev;
                   log := log prev;
                   turn := turn prev;
                   isGameOver := isGameOver prev;
                   currentEffect := Some (effect tile);
                   drawnCard := drawnCard prev |}) ;;
              when soundEnabled (onDevice (playSfx env sfx_tile)) ;;
              addToLog ("📍 Landed on " ++ name tile ++ ": "
                        ++ effect tile) ;;
              if Js.ltb u_card 0.3
                 || Js.includes (Js.toLowerCase (effect tile)) "card"
              then setTimeout cb_drawCard 500
              else ret tt
          | None => ret tt
          end
      end
    else ret tt.

Definition resetGame : Prog World unit :=
  setGameState (fun _ =>
    {| playerPosition := 0;
       log := ["Game reset. Ready to start!"];
       turn := 1;
       isGameOver := false;
       currentEffect := None;
       drawnCard := None |}).

(** A click on the roll button: the handler of the current render,
    which closed over the current state, runs on the store. *)
Definition rollAction (u_roll u_card : Q) : Prog World unit :=
  fun w => handleRoll (w_gameState w) (w_isRolling w) u_roll u_card w.

End GameSimulation.

(** ** Notions used by the statements *)

(** The text contains a piece that [toLowerCase] turns into the word. *)
Definition mentions (word s : string) : Prop :=
  exists pre m post,
    s = (pre ++ m ++ post)%string /\ Js.toLowerCase m = word.

(** The word card in any case of its letters, letter by letter. *)
Definition spellsCard (m : string) : Prop :=
  exists c1 c2 c3 c4 : ascii,
    m = String c1 (String c2 (String c3 (String c4 EmptyString))) /\
    (c1 = "c" \/ c1 = "C")%char /\
    (c2 = "a" \/ c2 = "A")%char /\
    (c3 = "r" \/ c3 = "R")%char /\
    (c4 = "d" \/ c4 = "D")%char.

(** The text contains the word card, in any case of its letters. *)
Definition mentionsCard (s : string) : Prop :=
  exists pre m post, s = (pre ++ m ++ post)%string /\ spellsCard m.

(** [spaces[i]?.tileDetails]. *)
Definition tileAt (design : GameDesign) (i : Z) : option TileType :=
  match Js.at_ (spaces design) (Some i) with
  | Some sp => tileDetails sp
  | None => None
  end.

(** The store with another audio device. *)
Definition withDevice (w : World) (d : Device) : World :=
  {| w_gameState := w_gameState w;
     w_isRolling := w_isRolling w;
     w_timers := w_timers w;
     w_device := d |}.

(** The device after [if (soundEnabled) playSfx(t)]. *)
Definition sound (env : AudioEnv) (soundEnabled : bool) (t : SfxType)
    (d : Device) : Device :=
  if soundEnabled then snd (playSfx env t d) else d.

(** The lines the handlers write to the log. *)
Definition line_finish (roll : Z) : string :=
  "🎲 Rolled a " ++ Js.show roll ++ ". Reached the Finish!".

Definition line_win (design : GameDesign) : string :=
  "🏆 " ++ winningCondition design.

Definition line_moved (roll newPosition : Z) : string :=
  "🎲 Rolled a " ++ Js.show roll ++ ". Moved to space "
  ++ Js.show (newPosition + 1) ++ ".".

Definition line_landed (tile : TileType) : string :=
  "📍 Landed on " ++ name tile ++ ": " ++ effect tile.

(** The line of a card draw, spelled out: the type of the card, then
    the example between two double-quote characters (character 34). *)
Definition doubleQuote : ascii :=
  Ascii false true false false false true false false.

Definition quoted (s : string) : string :=
  String doubleQuote (s ++ String doubleQuote EmptyString).

Definition drewLine (cardType example : string) : string :=
  "🎴 Drew a " ++ cardType ++ ": " ++ quoted example.

(** The timers after the card-draw test of a roll that landed on [tile]. *)
Definition cardTimers (u_card : Q) (tile : TileType)
    (timers : list (Callback * Z)) : list (Callback * Z) :=
  if Js.ltb u_card 0.3 || Js.includes (Js.toLowerCase (effect tile)) "card"
  then timers ++ [(cb_drawCard, 500)]
  else timers.

(** What an accepted roll makes of the store [w], for a handler that
    closed over the game state [gs]: the three paths of [handleRoll]. *)
Inductive Rolled (design : GameDesign) (env : AudioEnv) (soundEnabled : bool)
    (gs : GameState) (u_roll u_card : Q) (w : World) : World -> Prop :=
| Rolled_win :
    let roll := Js.floorMul u_roll 6 + 1 in
    TOTAL_SPACES - 1 <= playerPosition gs + roll ->
    Rolled design env soundEnabled gs u_roll u_card w
      {| w_gameState :=
           {| playerPosition := TOTAL_SPACES - 1;
              log := line_win design :: line_finish roll
                     :: log (w_gameState w);
              turn := turn (w_gameState w) + 1;
              isGameOver := true;
              currentEffect := None;
              drawnCard := None |};
         w_isRolling := false;
         w_timers := w_timers w;
         w_device :=
           sound env soundEnabled sfx_win
             (sound env soundEnabled sfx_roll (w_device w)) |}
| Rolled_tile :
    let roll := Js.floorMul u_roll 6 + 1 in
    let newPosition := playerPosition gs + roll in
    forall tile : TileType,
    0 < newPosition < TOTAL_SPACES - 1 ->
    tileAt design newPosition = Some tile ->
    Rolled design env soundEnabled gs u_roll u_card w
      {| w_gameState :=
           {| playerPosition := newPosition;
              log := line_landed tile :: line_moved roll newPosition
                     :: log (w_gameState w);
              turn := turn (w_gameState w) + 1;
              isGameOver := isGameOver (w_gameState w);
              currentEffect := Some (effect tile);
              drawnCard := None |};
         w_isRolling := false;
         w_timers := cardTimers u_card tile (w_timers w);
         w_device :=
           sound env soundEnabled sfx_tile
             (sound env soundEnabled sfx_move
                (sound env soundEnabled sfx_roll (w_device w))) |}
| Rolled_plain :
    let roll := Js.floorMul u_roll 6 + 1 in
    let newPosition := playerPosition gs + roll in
    newPosition < TOTAL_SPACES - 1 ->
    newPosition <= 0 \/ tileAt design newPosition = None ->
    Rolled design env soundEnabled gs u_roll u_card w
      {| w_gameState :=
           {| playerPosition := newPosition;
              log := line_moved roll newPosition :: log (w_gameState w);
              turn := turn (w_gameState w) + 1;
              isGameOver := isGameOver (w_gameState w);
              currentEffect := None;
              drawnCard := None |};
         w_isRolling := false;
         w_timers := w_timers w;
         w_device :=
           sound env soundEnabled sfx_move
             (sound env soundEnabled sfx_roll (w_device w)) |}.

(** The store after a sequence of clicks on the roll button, each with
    its two random numbers. *)
Fixpoint rollActions (design : GameDesign) (env : AudioEnv)
    (soundEnabled : bool) (rolls : list (Q * Q)) (w : World) : World :=
  match rolls with
  | [] => w
  | (u_roll, u_card) :: rolls' =>
      rollActions design env soundEnabled rolls'
        (snd (rollAction design env soundEnabled u_roll u_card w))
  end.

(** Two stores with the same game: only the audio device may differ. *)
Definition sameGame (w1 w2 : World) : Prop :=
  w_gameState w1 = w_gameState w2 /\
  w_isRolling w1 = w_isRolling w2 /\
  w_timers w1 = w_timers w2.

(** The layout in the words of the specification: on a grid of 4 rows
    and 6 columns, the [k]-th space of row [r] is in column [k] when [r]
    is even and in column [5 - k] when it is odd; the column maps
    linearly to an abscissa from 10 to 90, the row to an ordinate from
    90 down to 10. *)
Definition layout_column (r k : Z) : Z := if Z.even r then k else 5 - k.

Definition layout_x (column : Z) : Q :=
  10 + (90 - 10) * (inject_Z column / 5).

Definition layout_y (r : Z) : Q :=
  90 + (10 - 90) * (inject_Z r / 3).

(** ** A sample design and sample stores *)

Definition recycle : TileType :=
  {| name := "Recycle"; effect := "Draw a card"; color := "#00ff00" |}.

Definition litter : TileType :=
  {| name := "Litter"; effect := "Lose a turn"; color := "#ff0000" |}.

Definition depot : TileType :=
  {| name := "Depot"; effect := "Take a CARD from the pile";
     color := "#0000ff" |}.

Definition sampleDesign (tiles : list TileType) (cards : list CardType)
    : GameDesign :=
  {| title := "Clean Streets";
     overview := EmptyString;
     goal := EmptyString;
     story := EmptyString;
     boardDesign := EmptyString;
     tileTypes := tiles;
     components := [];
     cardTypes := cards;
     rules := [];
     gameplay := [];
     winningCondition := "First to the depot wins.";
     reward := EmptyString;
     learningOutcomes := [];
     sources := None |}.

Definition sampleCards : list CardType :=
  [ {| type := "A"; description := "first"; examples := ["a1"; "a2"] |};
    {| type := "B"; description := "second"; examples := ["b1"] |} ].

Definition cleanStreets : GameDesign :=
  sampleDesign [recycle; litter] sampleCards.

Definition depotStreets : GameDesign :=
  sampleDesign [depot; litter] sampleCards.

(** A browser without Web Audio, and one whose oscillators cannot be
    stopped. *)
Definition noAudio : AudioEnv :=
  {| hasAudioContext := false;
     currentTime := 0;
     throws := fun _ _ => false |}.

Definition stopThrows : AudioEnv :=
  {| hasAudioContext := true;
     currentTime := 0;
     throws := fun _ c => match c with stop _ => true | _ => false end |}.

Definition silentDevice : Device := {| calls := []; console := [] |}.

(** The store when the simulation opens, and a store with the token on
    space [p]. *)
Definition opened : World :=
  {| w_gameState := initialGameState;
     w_isRolling := false;
     w_timers := [];
     w_device := silentDevice |}.

Definition tokenOn (p : Z) (over : bool) : World :=
  {| w_gameState :=
       {| playerPosition := p;
          log := ["Welcome to the Playtest! Roll the dice to begin."];
          turn := 1;
          isGameOver := over;
          currentEffect := None;
          drawnCard := None |};
     w_isRolling := false;
     w_timers := [];
     w_device := silentDevice |}.

(** A list of [n] tile types told apart by their names. *)
Definition numberedTiles (n : nat) : list TileType :=
  map (fun k =>
         {| name := Js.show (Z.of_nat k);
            effect := "Move on";
            color := "#cbd5e1" |})
      (seq 0 n).

(** A design whose only card type has no example. *)
Definition blankCards : GameDesign :=
  sampleDesign [recycle]
    [ {| type := "Quiz"; description := "to be written"; examples := [] |} ].

(** The first random number of each roll is a result of
    [Math.random()]: in [0, 1). *)
Definition fairRolls (rolls : list (Q * Q)) : Prop :=
  Forall (fun r => (0 <= fst r)%Q /\ (fst r < 1)%Q) rolls.

(** ** The roll across its animation delay, and the event loop *)

(** What the component shows decides which clicks can happen: the roll
    button carries [disabled={isRolling || gameState.isGameOver}], and
    the Play Again button, whose click is [resetGame], is part of the
    panel shown when [gameState.isGameOver]. *)
Definition rollButtonDisabled (gameState : GameState) (isRolling : bool)
    : bool :=
  isRolling || isGameOver gameState.

Definition playAgainShown (gameState : GameState) : bool :=
  isGameOver gameState.

(** What waits in the timer queue of the browser: the rest of a
    [handleRoll] suspended at its [await], with the [gameState] it closed
    over, or a [drawCard]. *)
Inductive Task :=
| task_resume (gameState : GameState)
| task_drawCard.

Definition taskOf (cb : Callback) : Task :=
  match cb with
  | cb_drawCard => task_drawCard
  end.

(** The mounted component: its store and the timers not yet fired, in
    the order of their [setTimeout], each with its delay. *)
Record Loop := mkLoop {
  store : World;
  queue : list (Task * Z)
}.

(** The timers a handler has set move from the store to the queue. *)
Definition register (w : World) (waiting : list (Task * Z)) : Loop :=
  {| store :=
       {| w_gameState := w_gameState w;
          w_isRolling := w_isRolling w;
          w_timers := [];
          w_device := w_device w |};
     queue := waiting ++ map (fun e => (taskOf (fst e), snd e)) (w_timers w) |}.

(** A timer may fire once every timer set before it with a delay not
    longer than its own has fired. *)
Definition mayFire (waiting : list (Task * Z)) (k : nat) : bool :=
  match nth_error waiting k with
  | Some (_, ms) => forallb (fun e => ms <? snd e) (firstn k waiting)
  | None => false
  end.

Inductive Event :=
| click_roll
| click_reset
| timer_fires (k : nat) (u1 u2 : Q).

Section EventLoop.

Variable design : GameDesign.
Variable env : AudioEnv.
Variable soundEnabled : bool.

(** [handleRoll] up to its [await]; the result tells whether the roll
    was accepted. *)
Definition handleRoll_begin (gameState : GameState) (isRolling : bool)
    : Prog World bool :=
  if isGameOver gameState || isRolling then ret false
  else
    setIsRolling true ;;
    when soundEnabled (onDevice (playSfx env sfx_roll)) ;;
    setGameState (fun prev =>
      {| playerPosition := playerPosition prev;
         log := log prev;
         turn := turn prev;
         isGameOver := isGameOver prev;
         currentEffect := None;
         drawnCard := None |}) ;;
    ret true.

(** [handleRoll] from its [await] on. *)
Definition handleRoll_resume (gameState : GameState) (u_roll u_card : Q)
    : Prog World unit :=
  let roll := Js.floorMul u_roll 6 + 1 in
  let newPosition := playerPosition gameState + roll in
  newPosition <-
    (if newPosition >=? TOTAL_SPACES - 1 then
       let newPosition := TOTAL_SPACES - 1 in
       setGameState (fun prev =>
         {| playerPosition := playerPosition prev;
            log := log prev;
            turn := turn prev;
            isGameOver := true;
            currentEffect := currentEffect prev;
            drawnCard := drawnCard prev |}) ;;
       when soundEnabled (onDevice (playSfx env sfx_win)) ;;
       addToLog ("🎲 Rolled a " ++ Js.show roll
                 ++ ". Reached the Finish!") ;;
       addToLog ("🏆 " ++ winningCondition design) ;;
       ret newPosition
     else
       when soundEnabled (onDevice (playSfx env sfx_move)) ;;
       addToLog ("🎲 Rolled a " ++ Js.show roll ++ ". Moved to space "
                 ++ Js.show (newPosition + 1) ++ ".") ;;
       ret newPosition) ;;
  setGameState (fun prev =>
    {| playerPosition := newPosition;
       log := log prev;
       turn := turn prev + 1;
       isGameOver := isGameOver prev;
       currentEffect := currentEffect prev;
       drawnCard := drawnCard prev |}) ;;
  setIsRolling false ;;
  if (newPosition <? TOTAL_SPACES - 1) && (newPosition >? 0) then
    match Js.at_ (spaces design) (Some newPosition) with
    | None => throw "TypeError: spaces[newPosition] is undefined"
    | Some sp =>
        match tileDetails sp with
        | Some tile =>
            setGameState (fun prev =>
              {| playerPosition := playerPosition prev;
                 log := log prev;
                 turn := turn prev;
                 isGameOver := isGameOver prev;
                 currentEffect := Some (effect tile);
                 drawnCard := drawnCard prev |}) ;;
            when soundEnabled (onDevice (playSfx env sfx_tile)) ;;
            addToLog ("📍 Landed on " ++ name tile ++ ": "
                      ++ effect tile) ;;
            if Js.ltb u_card 0.3
               || Js.includes (Js.toLowerCase (effect tile)) "card"
            then setTimeout cb_drawCard 500
            else ret tt
        | None => ret tt
        end
    end
  else ret tt.

(** The handler of a task. *)
Definition runTask (task : Task) (u1 u2 : Q) : Prog World unit :=
  match task with
  | task_resume gameState => handleRoll_resume gameState u1 u2
  | task_drawCard => drawCard design env soundEnabled u1 u2
  end.

(** One event of the page; [None] when the event cannot happen (the
    button is disabled or not shown, the timer may not fire yet). An
    exception of a handler is reported by the browser and the page
    goes on with the store as the handler left it. *)
Definition step (l : Loop) (e : Event) : option Loop :=
  match e with
  | click_roll =>
      if rollButtonDisabled (w_gameState (store l)) (w_isRolling (store l))
      then None
      else
        let gameState := w_gameState (store l) in
        match handleRoll_begin gameState (w_isRolling (store l)) (store l) with
        | (Normal true, w') =>
            Some (register w' (queue l ++ [(task_resume gameState, 600)]))
        | (_, w') => Some (register w' (queue l))
        end
  | click_reset =>
      if playAgainShown (w_gameState (store l))
      then Some (register (snd (resetGame (store l))) (queue l))
      else None
  | timer_fires k u1 u2 =>
      if mayFire (queue l) k then
        match nth_error (queue l) k with
        | Some (task, _) =>
            Some (register (snd (runTask task u1 u2 (store l)))
                    (firstn k (queue l) ++ skipn (S k) (queue l)))
        | None => None
        end
      else None
  end.

End EventLoop.

(** The random numbers of an event are results of [Math.random()]. *)
Definition fairEvent (e : Event) : Prop :=
  match e with
  | timer_fires _ u1 u2 =>
      (0 <= u1)%Q /\ (u1 < 1)%Q /\ (0 <= u2)%Q /\ (u2 < 1)%Q
  | _ => True
  end.

(** The component right after it was mounted, on some audio device. *)
Definition mounted (d : Device) : Loop :=
  {| store :=
       {| w_gameState := initialGameState;
          w_isRolling := false;
          w_timers := [];
          w_device := d |};
     queue := [] |}.

(** The states of the page a user can bring about while the component
    is mounted, the sound switch being left as it is (the cues do not
    act on the game). *)
Inductive Reachable (design : GameDesign) (env : AudioEnv)
    (soundEnabled : bool) : Loop -> Prop :=
| Reachable_mounted (d : Device) :
    Reachable design env soundEnabled (mounted d)
| Reachable_step (l l' : Loop) (e : Event) :
    Reachable design env soundEnabled l ->
    fairEvent e ->
    step design env soundEnabled l e = Some l' ->
    Reachable design env soundEnabled l'.

(** The state a suspended roll closed over agrees with the store on
    what the rest of the roll reads. *)
Definition closureOf (w : World) (g : GameState) : Prop :=
  isGameOver g = false /\
  playerPosition g = playerPosition (w_gameState w).

(** What can wait in the queue: nothing or one card draw while no roll
    is under way; the rest of the roll, possibly behind one card draw,
    while one is. *)
Definition QueueShape (l : Loop) : Prop :=
  (w_isRolling (store l) = false /\ queue l = [])
  \/
  (w_isRolling (store l) = false /\
   isGameOver (w_gameState (store l)) = false /\
   queue l = [(task_drawCard, 500)])
  \/
  (w_isRolling (store l) = true /\
   isGameOver (w_gameState (store l)) = false /\
   exists g,
     closureOf (store l) g /\
     (queue l = [(task_resume g, 600)] \/
      queue l = [(task_drawCard, 500); (task_resume g, 600)])).

Definition Invariant (l : Loop) : Prop :=
  w_timers (store l) = [] /\
  0 <= playerPosition (w_gameState (store l)) <= 23 /\
  1 <= turn (w_gameState (store l)) /\
  (isGameOver (w_gameState (store l)) = true <->
   playerPosition (w_gameState (store l)) = 23) /\
  log (w_gameState (store l)) <> [] /\
  QueueShape l.

(** A sequence of events, as long as each of them can happen. *)
Fixpoint runEvents (design : GameDesign) (env : AudioEnv)
    (soundEnabled : bool) (events : list Event) (l : Loop) : option Loop :=
  match events with
  | [] => Some l
  | e :: events' =>
      match step design env soundEnabled l e with
      | Some l' => runEvents design env soundEnabled events' l'
      | None => None
      end
  end.

(** A game of four sixes on the sample design: each roll is a click and
    the timer of its animation; the card draws of the tiles landed on
    fire during the animation of the next roll. *)
Definition fourSixes : list Event :=
  [ click_roll; timer_fires 0 (5 # 6) (9 # 10);
    click_roll; timer_fires 0 (1 # 2) 0; timer_fires 0 (5 # 6) (9 # 10);
    click_roll; timer_fires 0 0 (1 # 2); timer_fires 0 (5 # 6) (9 # 10);
    click_roll; timer_fires 0 (1 # 2) 0; timer_fires 0 (5 # 6) (9 # 10) ]%Q.

Definition afterEvents (events : list Event) : Loop :=
  match runEvents cleanStreets stopThrows true events (mounted silentDevice)
  with
  | Some l => l
  | None => mounted silentDevice
  end.

(** The test of the floating indicator of the current tile,
    [!gameState.isGameOver && spaces[gameState.playerPosition].tileDetails]:
    the tile to show, if any; reading [tileDetails] of a space that does
    not exist throws. *)
Definition currentTileIndicator (design : GameDesign) (gameState : GameState)
    : Completion (option TileType) :=
  if negb (isGameOver gameState) then
    match Js.at_ (spaces design) (Some (playerPosition gameState)) with
    | Some sp => Normal (tileDetails sp)
    | None => Thrown "TypeError: spaces[gameState.playerPosition] is undefined"
    end
  else Normal None.

(** A second click on the roll button while the card draw of the first
    roll still waits. *)
Definition secondClick : list Event :=
  [ click_roll; timer_fires 0 (5 # 6) (9 # 10); click_roll ]%Q.

(** ** The cues as lists of operations *)

(** The operations of one [createOsc], in their order. *)
Definition oscCalls (t : OscillatorType) (freq startTime duration vol : Q)
    : list AudioCall :=
  [ createOscillator; createGain; connectOscToGain; connectGainToDestination;
    setOscType t;
    setValueAtTime frequency freq startTime;
    setValueAtTime gain vol startTime;
    exponentialRampToValueAtTime gain 0.01 (startTime + duration);
    start startTime;
    stop (startTime + duration) ].

(** The operations of a cue on a context whose clock shows [now]. *)
Definition cueCalls (now : Q) (t : SfxType) : list AudioCall :=
  newAudioContext ::
  match t with
  | sfx_roll =>
      oscCalls square 150 now 0.1 0.1
      ++ oscCalls square 120 (now + 0.08) 0.1 0.1
      ++ oscCalls square 100 (now + 0.16) 0.2 0.08
  | sfx_move =>
      [ createOscillator; createGain; connectOscToGain;
        connectGainToDestination;
        setOscType sine;
        setValueAtTime frequency 600 now;
        exponentialRampToValueAtTime frequency 100 (now + 0.15);
        setValueAtTime gain 0.15 now;
        exponentialRampToValueAtTime gain 0.01 (now + 0.15);
        start now;
        stop (now + 0.15) ]
  | sfx_card =>
      [ createOscillator; createGain; connectOscToGain;
        connectGainToDestination;
        setOscType triangle;
        setValueAtTime frequency 800 now;
        linearRampToValueAtTime frequency 1200 (now + 0.1);
        setValueAtTime gain 0.05 now;
        linearRampToValueAtTime gain 0 (now + 0.1);
        start now;
        stop (now + 0.1) ]
  | sfx_tile => oscCalls sine 880 now 0.8 0.1
  | sfx_win =>
      oscCalls triangle 523.25 (now + inject_Z 0 * 0.1) 0.6 0.1
      ++ oscCalls triangle 659.25 (now + inject_Z 1 * 0.1) 0.6 0.1
      ++ oscCalls triangle 783.99 (now + inject_Z 2 * 0.1) 0.6 0.1
      ++ oscCalls triangle 1046.50 (now + inject_Z 3 * 0.1) 0.6 0.1
  end.

(** The operations of a list one after the other, up to the first that
    throws. *)
Fixpoint callAll (env : AudioEnv) (cs : list AudioCall) : Prog Device unit :=
  match cs with
  | [] => ret tt
  | c :: cs' => call env c ;; callAll env cs'
  end.

(** An operation that takes a time takes one that is not before [from];
    a value that is set, or that an exponential ramp aims at, is above
    zero. *)
Definition scheduledFrom (from : Q) (c : AudioCall) : Prop :=
  match c with
  | setValueAtTime _ value time => (0 < value)%Q /\ (from <= time)%Q
  | exponentialRampToValueAtTime _ value time =>
      (0 < value)%Q /\ (from <= time)%Q
  | linearRampToValueAtTime _ _ time => (from <= time)%Q
  | start time => (from <= time)%Q
  | stop time => (from <= time)%Q
  | _ => True
  end.

(** Every [start] of the list is followed at once by the [stop] of the
    same oscillator, at a later time. *)
Fixpoint startsAreStopped (cs : list AudioCall) : Prop :=
  match cs with
  | [] => True
  | start b :: rest =>
      match rest with
      | stop e :: _ => (b < e)%Q /\ startsAreStopped rest
      | _ => False
      end
  | _ :: rest => startsAreStopped rest
  end.

Definition isCreateOscillator (c : AudioCall) : bool :=
  match c with createOscillator => true | _ => false end.

Definition isStop (c : AudioCall) : bool :=
  match c with stop _ => true | _ => false end.

(** A browser whose Web Audio never throws. *)
Definition workingAudio : AudioEnv :=
  {| hasAudioContext := true;
     currentTime := 0;
     throws := fun _ _ => false |}.

(** ** [services/geminiService.ts]: reading the answers of the service *)

(** A string that is defined and not empty. *)
Definition truthy (s : option string) : bool :=
  match s with
  | Some (String _ _) => true
  | _ => false
  end.

(** [s.split(sep)] for a separator that is not empty: [cur] is the
    piece being read and [skip] the number of characters of a separator
    just found that are still to pass. *)
Fixpoint splitFrom (sep : string) (skip : nat) (s cur : string)
    : list string :=
  match s with
  | EmptyString => [cur]
  | String c s' =>
      match skip with
      | S skip' => splitFrom sep skip' s' cur
      | O =>
          if prefix sep s
          then cur :: splitFrom sep (String.length sep - 1) s' EmptyString
          else splitFrom sep 0 s' (cur ++ String c EmptyString)
      end
  end.

Definition jsSplit (s sep : string) : list string :=
  splitFrom sep 0 s EmptyString.

(** The parts of a [GenerateContentResponse] that the service reads;
    every field may be missing. *)
Record Blob := mkBlob {
  mimeType : option string;
  data : option string
}.

Record Part := mkPart {
  inlineData : option Blob;
  text : option string
}.

Record Content := mkContent {
  parts : option (list Part)
}.

Record WebChunk := mkWebChunk {
  web_uri : option string;
  web_title : option string
}.

Record GroundingChunk := mkGroundingChunk {
  web : option WebChunk
}.

Record GroundingMetadata := mkGroundingMetadata {
  groundingChunks : option (list GroundingChunk)
}.

Record Candidate := mkCandidate {
  candidate_content : option Content;
  groundingMetadata : option GroundingMetadata
}.

Record GenerateContentResponse := mkResponse {
  candidates : option (list Candidate)
}.

(** The data URL of a blob. *)
Definition dataUrl (blob : Blob) : string :=
  "data:" ++ Js.showOpt (mimeType blob) ++ ";base64,"
  ++ Js.showOpt (data blob).

(** The [for] loop of [extractImage]. *)
Fixpoint firstInlineImage (ps : list Part) : option string :=
  match ps with
  | [] => None
  | part :: rest =>
      match inlineData part with
      | Some blob =>
          if truthy (data blob) then Some (dataUrl blob)
          else firstInlineImage rest
      | None => firstInlineImage rest
      end
  end.

Definition extractImage (response : GenerateContentResponse)
    : option string :=
  match candidates response with
  | Some (candidate :: _) =>
      match candidate_content candidate with
      | Some c =>
          match parts c with
          | Some ps => firstInlineImage ps
          | None => None
          end
      | None => None
      end
  | _ => None
  end.

(** The [imageData] of [editBoardImage] and [generateVeoVideo]: the
    image without the header of its data URL. *)
Definition imageData (base64Image : string) : option string :=
  if Js.includes base64Image "base64,"
  then nth_error (jsSplit base64Image "base64,") 1
  else Some base64Image.

(** The loop of [generateGameConcept] over the grounding chunks. *)
Fixpoint collectSources (chunks : list GroundingChunk) (acc : list Source)
    : list Source :=
  match chunks with
  | [] => acc
  | chunk :: rest =>
      match web chunk with
      | Some w =>
          if truthy (web_uri w)
          then collectSources rest
                 (acc ++ [ {| source_title :=
                                if truthy (web_title w)
                                then Js.showOpt (web_title w)
                                else "Source";
                              uri := Js.showOpt (web_uri w) |} ])
          else collectSources rest acc
      | None => collectSources rest acc
      end
  end.

(** The [sources] that [generateGameConcept] puts in the design. *)
Definition groundingSources (response : GenerateContentResponse)
    : list Source :=
  match candidates response with
  | Some (candidate :: _) =>
      match groundingMetadata candidate with
      | Some meta =>
          match groundingChunks meta with
          | Some chunks => collectSources chunks []
          | None => []
          end
      | None => []
      end
  | _ => []
  end.

(** A part that carries image data. *)
Definition hasImage (part : Part) : bool :=
  match inlineData part with
  | Some blob => truthy (data blob)
  | None => false
  end.

(** A sample answer: a text part, then two images. *)
Definition sampleAnswer : GenerateContentResponse :=
  {| candidates :=
       Some
         [ {| candidate_content :=
                Some
                  {| parts :=
                       Some
                         [ {| inlineData := None;
                              text := Some "Here is your board." |};
                           {| inlineData :=
                                Some {| mimeType := Some "image/png";
                                        data := Some "iVBORw0KGgo=" |};
                              text := None |};
                           {| inlineData :=
                                Some {| mimeType := Some "image/jpeg";
                                        data := Some "/9j/4AAQ" |};
                              text := None |} ] |};
              groundingMetadata :=
                Some
                  {| groundingChunks :=
                       Some
                         [ {| web :=
                                Some {| web_uri := Some "https://a.example";
                                        web_title := None |} |};
                           {| web := None |};
                           {| web :=
                                Some {| web_uri := Some EmptyString;
                                        web_title := Some "Empty" |} |};
                           {| web :=
                                Some {| web_uri := Some "https://b.example";
                                        web_title := Some "B" |} |} ] |} |} ] |}.

(** ** What is drawn: the colours of the spaces and of the cards *)

(** The [backgroundColor] of the space of index [idx] in
    [GameSimulation]:
    [space.tileDetails?.color || (idx === 0 ? ... : ...)]. *)
Definition spaceBackground (sp : BoardSpace) (idx : Z) : string :=
  let tileColor := option_map color (tileDetails sp) in
  if truthy tileColor then Js.showOpt tileColor
  else if idx =? 0 then "#10b981"
  else if idx =? TOTAL_SPACES - 1 then "#f59e0b"
  else "#cbd5e1".

(** [components/CardPreview.tsx]: the themes and the choice of one by
    the index of the card type, [colors[index % colors.length]]. *)
Record Theme := mkTheme {
  theme_bg : string;
  theme_border : string;
  theme_text : string
}.

Definition colors : list Theme :=
  [ {| theme_bg := "bg-orange-100"; theme_border := "border-orange-300";
       theme_text := "text-orange-800" |};
    {| theme_bg := "bg-teal-100"; theme_border := "border-teal-300";
       theme_text := "text-teal-800" |};
    {| theme_bg := "bg-purple-100"; theme_border := "border-purple-300";
       theme_text := "text-purple-800" |};
    {| theme_bg := "bg-pink-100"; theme_border := "border-pink-300";
       theme_text := "text-pink-800" |} ].

Definition theme (index : Z) : option Theme :=
  Js.at_ colors (Js.rem index (Z.of_nat (length colors))).

(** The card draw of the first roll fires while the second roll waits
    for its animation. *)
Definition drawWhileRolling : list Event :=
  [ click_roll; timer_fires 0 (5 # 6) (9 # 10); click_roll;
    timer_fires 0 (1 # 2) 0 ]%Q.

(** * Properties *)

(** ** Numbers and strings *)

(** [Math.floor(u * n)] is an index below [n] when [u] is in [0, 1). *)
Lemma floorMul_range (u : Q) (n : Z) :
  (0 <= u)%Q -> (u < 1)%Q -> 0 < n -> 0 <= Js.floorMul u n < n.
Proof.
  intros H0 H1 Hn. unfold Js.floorMul.
  assert (Hq : (inject_Z 0 < inject_Z n)%Q) by (rewrite <- Zlt_Qlt; exact Hn).
  split.
  - change 0 with (Qfloor (inject_Z 0)). apply Qfloor_resp_le.
    apply Qmult_le_0_compat; [exact H0 | apply Qlt_le_weak; exact Hq].
  - assert (Hlt : (inject_Z (Qfloor (u * inject_Z n)) < inject_Z n)%Q).
    { eapply Qle_lt_trans; [apply Qfloor_le |].
      rewrite <- (Qmult_1_l (inject_Z n)) at 2.
      apply Qmult_lt_compat_r; assumption. }
    rewrite <- Zlt_Qlt in Hlt. exact Hlt.
Qed.


Lemma ltb_lt (a b : Q) : Js.ltb a b = true <-> (a < b)%Q.
Proof.
  unfold Js.ltb. rewrite negb_true_iff. split.
  - intros H. apply Qnot_le_lt. intros Hle.
    apply Qle_bool_iff in Hle. congruence.
  - intros H. destruct (Qle_bool b a) eqn:E; [| reflexivity].
    apply Qle_bool_iff in E. exfalso. exact (Qlt_not_le _ _ H E).
Qed.

Lemma prefix_app (n s : string) :
  prefix n s = true <-> exists post, s = (n ++ post)%string.
Proof.
  revert s. induction n as [| c n IH]; intros s.
  - split; [intros _; exists s; reflexivity | intros _; destruct s; reflexivity].
  - destruct s as [| c' s]; simpl.
    + split; [discriminate | intros [post H]; discriminate].
    + destruct (ascii_dec c c') as [-> | Hne].
      * rewrite IH. split; intros [post H]; exists post; congruence.
      * split; [discriminate | intros [post H]; congruence].
Qed.

(** [includes] decides whether the needle occurs in the string. *)
Lemma includes_spec (s n : string) :
  Js.includes s n = true <->
  exists pre post, s = (pre ++ n ++ post)%string.
Proof.
  induction s as [| c s IH].
  - cbn [Js.includes]. rewrite orb_false_r, prefix_app. split.
    + intros [post H]. exists EmptyString, post. exact H.
    + intros [pre [post H]]. destruct pre; [exists post; exact H | discriminate].
  - cbn [Js.includes]. rewrite orb_true_iff, IH, prefix_app. split.
    + intros [[post H] | [pre [post H]]].
      * exists EmptyString, post. exact H.
      * exists (String c pre), post. simpl. congruence.
    + intros [pre [post H]]. destruct pre as [| c' pre].
      * left. exists post. exact H.
      * right. exists pre, post. simpl in H. congruence.
Qed.

Lemma toLowerCase_app (a b : string) :
  Js.toLowerCase (a ++ b) = (Js.toLowerCase a ++ Js.toLowerCase b)%string.
Proof.
  induction a as [| c a IH]; simpl; [reflexivity | rewrite IH; reflexivity].
Qed.

Lemma toLowerCase_split (s a b : string) :
  Js.toLowerCase s = (a ++ b)%string ->
  exists a' b',
    s = (a' ++ b')%string /\ Js.toLowerCase a' = a /\ Js.toLowerCase b' = b.
Proof.
  revert s. induction a as [| c a IH]; intros s H.
  - exists EmptyString, s. auto.
  - destruct s as [| c' s]; simpl in H; [discriminate |].
    injection H as Hc Hs. destruct (IH s Hs) as [a' [b' [E [Ea Eb]]]].
    exists (String c' a'), b'. simpl. repeat split; congruence.
Qed.

Lemma includes_toLowerCase (s word : string) :
  Js.includes (Js.toLowerCase s) word = true <-> mentions word s.
Proof.
  rewrite includes_spec. split.
  - intros [pre [post H]].
    destruct (toLowerCase_split _ _ _ H) as [pre' [rest [E [_ Er]]]].
    destruct (toLowerCase_split _ _ _ Er) as [m [post' [E' [Em _]]]].
    exists pre', m, post'. subst. auto.
  - intros [pre [m [post [E Em]]]].
    exists (Js.toLowerCase pre), (Js.toLowerCase post).
    subst. rewrite !toLowerCase_app. reflexivity.
Qed.

(** The four letters of the word, and what [toLowerCase] maps to them. *)
Ltac letter_cases c :=
  destruct c as [[] [] [] [] [] [] [] []]; cbv;
  (split;
   [ intros H; first [discriminate H | left; reflexivity | right; reflexivity]
   | intros [H | H]; first [discriminate H | reflexivity] ]).

Lemma lowerAscii_c (c : ascii) :
  Js.lowerAscii c = "c"%char <-> (c = "c" \/ c = "C")%char.
Proof. letter_cases c. Qed.

Lemma lowerAscii_a (c : ascii) :
  Js.lowerAscii c = "a"%char <-> (c = "a" \/ c = "A")%char.
Proof. letter_cases c. Qed.

Lemma lowerAscii_r (c : ascii) :
  Js.lowerAscii c = "r"%char <-> (c = "r" \/ c = "R")%char.
Proof. letter_cases c. Qed.

Lemma lowerAscii_d (c : ascii) :
  Js.lowerAscii c = "d"%char <-> (c = "d" \/ c = "D")%char.
Proof. letter_cases c. Qed.

Lemma toLowerCase_card (m : string) :
  Js.toLowerCase m = "card" <-> spellsCard m.
Proof.
  split.
  - intros H.
    destruct m as [| c1 [| c2 [| c3 [| c4 [| c5 m]]]]]; simpl in H;
      try discriminate H.
    injection H as H1 H2 H3 H4.
    exists c1, c2, c3, c4.
    rewrite <- lowerAscii_c, <- lowerAscii_a, <- lowerAscii_r,
      <- lowerAscii_d.
    repeat split; assumption.
  - intros [c1 [c2 [c3 [c4 [E [H1 [H2 [H3 H4]]]]]]]].
    apply lowerAscii_c in H1. apply lowerAscii_a in H2.
    apply lowerAscii_r in H3. apply lowerAscii_d in H4.
    subst m. simpl. rewrite H1, H2, H3, H4. reflexivity.
Qed.

Lemma mentions_card (s : string) : mentions "card" s <-> mentionsCard s.
Proof.
  split; intros [pre [m [post [E Hm]]]]; exists pre, m, post;
    (split; [exact E | apply toLowerCase_card; exact Hm]).
Qed.

(** ** The board *)

Lemma spaces_loop_spec (design : GameDesign) (todo : nat) :
  forall i path,
    spaces_loop design todo i path =
    (path ++ map (fun k => space design (i + Z.of_nat k)) (seq 0 todo))%list.
Proof.
  induction todo as [| todo IH]; intros i path; simpl.
  - rewrite app_nil_r. reflexivity.
  - rewrite IH, <- app_assoc. simpl. rewrite Z.add_0_r.
    do 2 f_equal. rewrite <- seq_shift, map_map.
    apply map_ext. intros k. f_equal. lia.
Qed.

Lemma spaces_map (design : GameDesign) :
  spaces design =
  map (fun k => space design (Z.of_nat k)) (seq 0 (Z.to_nat TOTAL_SPACES)).
Proof. unfold spaces. rewrite spaces_loop_spec. reflexivity. Qed.

Lemma spaces_length (design : GameDesign) :
  length (spaces design) = Z.to_nat TOTAL_SPACES.
Proof. rewrite spaces_map, length_map, length_seq. reflexivity. Qed.

Lemma spaces_at (design : GameDesign) (i : Z) :
  0 <= i < TOTAL_SPACES ->
  Js.at_ (spaces design) (Some i) = Some (space design i).
Proof.
  intros Hi. unfold Js.at_.
  destruct (Z.ltb_spec i 0) as [Hneg | _]; [lia |].
  rewrite spaces_map, nth_error_map, nth_error_seq.
  destruct (Nat.ltb_spec (Z.to_nat i) (Z.to_nat TOTAL_SPACES)) as [_ | Hge];
    [| lia].
  simpl. rewrite Z2Nat.id by lia. reflexivity.
Qed.

(** ** Running the handlers *)

(** The [try]/[catch] of [playSfx] leaves no exception to the caller. *)
Lemma playSfx_normal (env : AudioEnv) (t : SfxType) (d : Device) :
  exists d', playSfx env t d = (Normal tt, d').
Proof.
  unfold playSfx, tryCatch.
  destruct (playSfx_try env t d) as [[[] | e] d'].
  - exists d'. reflexivity.
  - unfold console_error. eexists. reflexivity.
Qed.

Lemma bind_assoc {S A B C : Type} (m : Prog S A) (f : A -> Prog S B)
    (g : B -> Prog S C) (s : S) :
  bind (bind m f) g s = bind m (fun a => bind (f a) g) s.
Proof. unfold bind. destruct (m s) as [[a | e] s']; reflexivity. Qed.

Lemma bind_ret {S A B : Type} (a : A) (k : A -> Prog S B) (s : S) :
  bind (ret a) k s = k a s.
Proof. reflexivity. Qed.

Section Run.

Context {A : Type}.
Variable k : unit -> Prog World A.
Variable w : World.

Lemma bind_setGameState (f : GameState -> GameState) :
  bind (setGameState f) k w =
  k tt {| w_gameState := f (w_gameState w);
          w_isRolling := w_isRolling w;
          w_timers := w_timers w;
          w_device := w_device w |}.
Proof. reflexivity. Qed.

Lemma bind_addToLog (message : string) :
  bind (addToLog message) k w =
  k tt {| w_gameState :=
            {| playerPosition := playerPosition (w_gameState w);
               log := message :: log (w_gameState w);
               turn := turn (w_gameState w);
               isGameOver := isGameOver (w_gameState w);
               currentEffect := currentEffect (w_gameState w);
               drawnCard := drawnCard (w_gameState w) |};
          w_isRolling := w_isRolling w;
          w_timers := w_timers w;
          w_device := w_device w |}.
Proof. reflexivity. Qed.

Lemma bind_setIsRolling (b : bool) :
  bind (setIsRolling b) k w =
  k tt {| w_gameState := w_gameState w;
          w_isRolling := b;
          w_timers := w_timers w;
          w_device := w_device w |}.
Proof. reflexivity. Qed.

Lemma bind_delay (ms : Z) : bind (delay ms) k w = k tt w.
Proof. reflexivity. Qed.

Lemma bind_sound (env : AudioEnv) (b : bool) (t : SfxType) :
  bind (when b (onDevice (playSfx env t))) k w =
  k tt (withDevice w (sound env b t (w_device w))).
Proof.
  unfold bind, when, sound. destruct b.
  - unfold onDevice.
    destruct (playSfx_normal env t (w_device w)) as [d' E]. rewrite E.
    reflexivity.
  - destruct w; reflexivity.
Qed.

End Run.

(** One step of a handler run on an explicit store. *)
Ltac run_step :=
  first
    [ rewrite bind_assoc
    | rewrite bind_ret
    | rewrite bind_setGameState
    | rewrite bind_addToLog
    | rewrite bind_setIsRolling
    | rewrite bind_delay
    | rewrite bind_sound ];
  cbn [w_gameState w_isRolling w_timers w_device withDevice
       playerPosition log turn isGameOver currentEffect drawnCard].

Ltac run := repeat run_step.

(** An accepted roll completes normally, along one of the three paths. *)
Lemma handleRoll_accepted (design : GameDesign) (env : AudioEnv)
    (soundEnabled : bool) (gs : GameState) (u_roll u_card : Q) (w : World) :
  isGameOver gs = false ->
  exists w',
    handleRoll design env soundEnabled gs false u_roll u_card w
    = (Normal tt, w') /\
    Rolled design env soundEnabled gs u_roll u_card w w'.
Proof.
  intros Hover. unfold handleRoll. rewrite Hover. cbn [orb].
  run. cbv zeta.
  set (roll := Js.floorMul u_roll 6 + 1).
  set (newPosition := playerPosition gs + roll).
  destruct (Z.geb_spec newPosition (TOTAL_SPACES - 1)) as [Hwin | Hmove].
  - run.
    replace ((TOTAL_SPACES - 1 <? TOTAL_SPACES - 1) && (TOTAL_SPACES - 1 >? 0))
      with false by reflexivity.
    eexists. split; [reflexivity |].
    apply Rolled_win. exact Hwin.
  - run.
    destruct (Z.ltb_spec newPosition (TOTAL_SPACES - 1)) as [_ | ?]; [| lia].
    cbn [andb].
    destruct (Z.gtb_spec newPosition 0) as [Hpos | Hnonpos].
    + pose proof (spaces_at design newPosition) as Hat.
      assert (Htile : tileAt design newPosition
                      = tileDetails (space design newPosition)).
      { unfold tileAt. rewrite Hat; [reflexivity |].
        unfold TOTAL_SPACES in *; lia. }
      rewrite Hat by (unfold TOTAL_SPACES in *; lia).
      rewrite <- Htile.
      destruct (tileAt design newPosition) as [tile |] eqn:Et.
      * run. eexists. split.
        2:{ apply Rolled_tile with (tile := tile);
              [fold roll; fold newPosition; lia | exact Et]. }
        unfold cardTimers. fold roll. fold newPosition.
        destruct (Js.ltb u_card 0.3
                  || Js.includes (Js.toLowerCase (effect tile)) "card");
          reflexivity.
      * eexists. split; [reflexivity |].
        apply Rolled_plain; [exact Hmove | right; exact Et].
    + eexists. split; [reflexivity |].
      apply Rolled_plain;
        [exact Hmove | left; fold roll; fold newPosition; lia].
Qed.

(** The roll button on a store that is neither over nor rolling. *)
Lemma rollAction_accepted (design : GameDesign) (env : AudioEnv)
    (soundEnabled : bool) (u_roll u_card : Q) (w : World) :
  isGameOver (w_gameState w) = false ->
  w_isRolling w = false ->
  exists w',
    rollAction design env soundEnabled u_roll u_card w = (Normal tt, w') /\
    Rolled design env soundEnabled (w_gameState w) u_roll u_card w w'.
Proof.
  intros Hover Hroll. unfold rollAction. rewrite Hroll.
  apply handleRoll_accepted. exact Hover.
Qed.

(** The die: [Math.floor(Math.random() * 6) + 1] is between 1 and 6. *)
Lemma die_range (u : Q) :
  (0 <= u)%Q -> (u < 1)%Q -> 1 <= Js.floorMul u 6 + 1 <= 6.
Proof.
  intros H0 H1. pose proof (floorMul_range u 6 H0 H1). lia.
Qed.

(** No tile before or on the start space. *)
Lemma tileAt_nonpos (design : GameDesign) (i : Z) :
  i <= 0 -> tileAt design i = None.
Proof.
  intros Hi. unfold tileAt, Js.at_.
  destruct (Z.ltb_spec i 0) as [_ | Hge]; [reflexivity |].
  assert (E : i = 0) by lia. subst i.
  rewrite spaces_map. reflexivity.
Qed.

(** ** The turn state machine *)

(** C1. From a position [p] in [0, 23] and with a die roll [r] in
    [1, 6], an accepted roll moves the token to [min (p + r) 23]: never
    beyond 23, never backwards; when [p + r] reaches 23 the token is on
    23 and the game is over. *)
Theorem roll_moves_to_min (design : GameDesign) (env : AudioEnv)
    (soundEnabled : bool) (u_roll u_card : Q) (w : World) (p r : Z) :
  isGameOver (w_gameState w) = false ->
  w_isRolling w = false ->
  playerPosition (w_gameState w) = p ->
  0 <= p <= 23 ->
  Js.floorMul u_roll 6 + 1 = r ->
  1 <= r <= 6 ->
  exists w',
    rollAction design env soundEnabled u_roll u_card w = (Normal tt, w') /\
    playerPosition (w_gameState w') = Z.min (p + r) 23 /\
    playerPosition (w_gameState w') <= 23 /\
    p <= playerPosition (w_gameState w') /\
    (23 <= p + r ->
     playerPosition (w_gameState w') = 23 /\
     isGameOver (w_gameState w') = true).
Proof.
  intros Hover Hroll Hp Hrange Hr Hdie.
  destruct (rollAction_accepted design env soundEnabled u_roll u_card w
              Hover Hroll) as [w' [Hrun Hstep]].
  exists w'. split; [exact Hrun |].
  destruct Hstep; cbn [w_gameState playerPosition isGameOver];
    subst roll; try subst newPosition; unfold TOTAL_SPACES in *;
    rewrite Hp, Hr in *; repeat split; try lia; reflexivity.
Qed.

Lemma roll_moves_to_min_witness :
  isGameOver (w_gameState (tokenOn 22 false)) = false /\
  w_isRolling (tokenOn 22 false) = false /\
  playerPosition (w_gameState (tokenOn 22 false)) = 22 /\
  0 <= 22 <= 23 /\
  Js.floorMul (4 # 6) 6 + 1 = 5 /\
  1 <= 5 <= 6 /\
  exists w',
    rollAction cleanStreets stopThrows true (4 # 6) (1 # 2) (tokenOn 22 false)
    = (Normal tt, w') /\
    playerPosition (w_gameState w') = Z.min (22 + 5) 23 /\
    playerPosition (w_gameState w') <= 23 /\
    22 <= playerPosition (w_gameState w') /\
    (23 <= 22 + 5 ->
     playerPosition (w_gameState w') = 23 /\
     isGameOver (w_gameState w') = true).
Proof.
  repeat (split; [first [reflexivity | lia] |]).
  apply (roll_moves_to_min cleanStreets stopThrows true (4 # 6) (1 # 2)
           (tokenOn 22 false) 22 5);
    first [reflexivity | lia].
Defined.

(** C2. On a state whose game is over the roll action is a no-op: the
    handler returns before its first write, so position, turn,
    game-over flag, effect, card and log (the whole store) are as
    before, and stay so through any number of further rolls; the reset
    action does change such a state, to the initial values with a
    fresh log. *)
Theorem roll_is_noop_when_over (design : GameDesign) (env : AudioEnv)
    (soundEnabled : bool) (u_roll u_card : Q) (w : World) :
  isGameOver (w_gameState w) = true ->
  rollAction design env soundEnabled u_roll u_card w = (Normal tt, w) /\
  (forall (isRolling : bool) (store : World),
     handleRoll design env soundEnabled (w_gameState w) isRolling
       u_roll u_card store
     = (Normal tt, store)) /\
  (forall rolls : list (Q * Q),
     rollActions design env soundEnabled rolls w = w) /\
  exists w',
    resetGame w = (Normal tt, w') /\
    w_gameState w' =
      {| playerPosition := 0;
         log := ["Game reset. Ready to start!"];
         turn := 1;
         isGameOver := false;
         currentEffect := None;
         drawnCard := None |} /\
    w_gameState w' <> w_gameState w.
Proof.
  intros Hover. split; [| split; [| split]].
  - unfold rollAction, handleRoll. rewrite Hover. reflexivity.
  - intros isRolling store. unfold handleRoll. rewrite Hover. reflexivity.
  - intros rolls. induction rolls as [| [u1 u2] rolls IH]; [reflexivity |].
    cbn [rollActions]. unfold rollAction at 1, handleRoll.
    rewrite Hover. exact IH.
  - eexists. split; [reflexivity |]. split; [reflexivity |].
    cbn [w_gameState]. intros E. rewrite <- E in Hover.
    discriminate Hover.
Qed.

Lemma roll_is_noop_when_over_witness :
  isGameOver (w_gameState (tokenOn 23 true)) = true /\
  rollAction cleanStreets stopThrows true (1 # 2) (1 # 10) (tokenOn 23 true)
  = (Normal tt, tokenOn 23 true).
Proof.
  split; [reflexivity |].
  apply (roll_is_noop_when_over cleanStreets stopThrows true (1 # 2) (1 # 10)
           (tokenOn 23 true)).
  reflexivity.
Defined.

(** C3, as the code has it. An accepted roll puts one or two new lines
    in front of the log: a game-ending roll two of them (the win
    condition in front of the roll result), a roll that lands on a tile
    two (the tile line in front of the roll result), any other roll the
    roll result alone; the reset action leaves a log of one line. *)
Theorem roll_prepends_log_lines (design : GameDesign) (env : AudioEnv)
    (soundEnabled : bool) (u_roll u_card : Q) (w : World)
    (roll newPosition : Z) :
  isGameOver (w_gameState w) = false ->
  w_isRolling w = false ->
  roll = Js.floorMul u_roll 6 + 1 ->
  newPosition = playerPosition (w_gameState w) + roll ->
  (exists w',
     rollAction design env soundEnabled u_roll u_card w = (Normal tt, w') /\
     ((23 <= newPosition /\
       isGameOver (w_gameState w') = true /\
       log (w_gameState w') =
         line_win design :: line_finish roll :: log (w_gameState w))
      \/
      (newPosition < 23 /\
       exists tile,
         tileAt design newPosition = Some tile /\
         log (w_gameState w') =
           line_landed tile :: line_moved roll newPosition
           :: log (w_gameState w))
      \/
      (newPosition < 23 /\
       tileAt design newPosition = None /\
       log (w_gameState w') =
         line_moved roll newPosition :: log (w_gameState w)))) /\
  exists w0,
    resetGame w = (Normal tt, w0) /\
    log (w_gameState w0) = ["Game reset. Ready to start!"].
Proof.
  intros Hover Hroll Hr Hn. split.
  - destruct (rollAction_accepted design env soundEnabled u_roll u_card w
                Hover Hroll) as [w' [Hrun Hstep]].
    exists w'. split; [exact Hrun |].
    destruct Hstep as [roll0 Hwin | roll0 new0 tile Hin Htile
                      | roll0 new0 Hmove Hnone];
      cbn [w_gameState log isGameOver];
      subst roll0; try subst new0; rewrite <- Hr in *; rewrite <- Hn in *;
      unfold TOTAL_SPACES in *.
    + left. split; [lia | split; reflexivity].
    + right; left. split; [lia |]. exists tile. split; [exact Htile |].
      reflexivity.
    + right; right. split; [lia |]. split; [| reflexivity].
      destruct Hnone as [Hle | Hnone]; [| exact Hnone].
      apply tileAt_nonpos. exact Hle.
  - eexists. split; reflexivity.
Qed.

Lemma roll_prepends_log_lines_witness :
  isGameOver (w_gameState opened) = false /\
  w_isRolling opened = false /\
  4 = Js.floorMul (3 # 6) 6 + 1 /\
  4 = playerPosition (w_gameState opened) + 4 /\
  (exists w',
     rollAction cleanStreets noAudio true (3 # 6) (1 # 2) opened
     = (Normal tt, w') /\
     ((23 <= 4 /\
       isGameOver (w_gameState w') = true /\
       log (w_gameState w') =
         line_win cleanStreets :: line_finish 4 :: log (w_gameState opened))
      \/
      (4 < 23 /\
       exists tile,
         tileAt cleanStreets 4 = Some tile /\
         log (w_gameState w') =
           line_landed tile :: line_moved 4 4 :: log (w_gameState opened))
      \/
      (4 < 23 /\
       tileAt cleanStreets 4 = None /\
       log (w_gameState w') =
         line_moved 4 4 :: log (w_gameState opened)))) /\
  exists w0,
    resetGame opened = (Normal tt, w0) /\
    log (w_gameState w0) = ["Game reset. Ready to start!"].
Proof.
  repeat (split; [reflexivity |]).
  apply (roll_prepends_log_lines cleanStreets noAudio true (3 # 6) (1 # 2)
           opened 4 4);
    reflexivity.
Defined.

(** C3 as the specification words it fails: the roll of a 5 from space
    22 ends the game and leaves two new lines in the log, not one. *)
Lemma game_ending_roll_one_line_counterexample :
  isGameOver (w_gameState (tokenOn 22 false)) = false /\
  w_isRolling (tokenOn 22 false) = false /\
  Js.floorMul (4 # 6) 6 + 1 = 5 /\
  isGameOver
    (w_gameState
       (snd (rollAction cleanStreets noAudio true (4 # 6) (1 # 2)
               (tokenOn 22 false)))) = true /\
  ~ (exists entry,
       log
         (w_gameState
            (snd (rollAction cleanStreets noAudio true (4 # 6) (1 # 2)
                    (tokenOn 22 false))))
       = entry :: log (w_gameState (tokenOn 22 false))).
Proof.
  repeat (split; [reflexivity |]).
  intros [entry H]. vm_compute in H. discriminate H.
Qed.

(** C4. A roll that leaves the token on index 0 or on index 23 sets no
    effect: the effect is set only for a position strictly between the
    two, and a game-ending roll, clamped to 23, ends with the effect
    cleared, no tile line in the log and no card draw scheduled. *)
Theorem no_effect_on_start_or_finish (design : GameDesign) (env : AudioEnv)
    (soundEnabled : bool) (u_roll u_card : Q) (w : World) :
  isGameOver (w_gameState w) = false ->
  w_isRolling w = false ->
  exists w',
    rollAction design env soundEnabled u_roll u_card w = (Normal tt, w') /\
    (playerPosition (w_gameState w') = 0 \/
     playerPosition (w_gameState w') = 23 ->
     currentEffect (w_gameState w') = None) /\
    (currentEffect (w_gameState w') <> None ->
     0 < playerPosition (w_gameState w') < 23) /\
    (23 <= playerPosition (w_gameState w) + (Js.floorMul u_roll 6 + 1) ->
     playerPosition (w_gameState w') = 23 /\
     isGameOver (w_gameState w') = true /\
     currentEffect (w_gameState w') = None /\
     log (w_gameState w') =
       line_win design :: line_finish (Js.floorMul u_roll 6 + 1)
       :: log (w_gameState w) /\
     w_timers w' = w_timers w).
Proof.
  intros Hover Hroll.
  destruct (rollAction_accepted design env soundEnabled u_roll u_card w
              Hover Hroll) as [w' [Hrun Hstep]].
  exists w'. split; [exact Hrun |].
  destruct Hstep as [roll Hwin | roll newPosition tile Hin Htile
                    | roll newPosition Hmove Hnone];
    cbn [w_gameState w_timers playerPosition isGameOver currentEffect log];
    subst roll; try subst newPosition; unfold TOTAL_SPACES in *.
  - split; [reflexivity |]. split; [congruence |].
    intros _. repeat split.
  - split; [lia |]. split; [lia |]. lia.
  - split; [reflexivity |]. split; [congruence |]. lia.
Qed.

Lemma no_effect_on_start_or_finish_witness :
  isGameOver (w_gameState (tokenOn 22 false)) = false /\
  w_isRolling (tokenOn 22 false) = false /\
  exists w',
    rollAction cleanStreets stopThrows true (4 # 6) 0 (tokenOn 22 false)
    = (Normal tt, w') /\
    (playerPosition (w_gameState w') = 0 \/
     playerPosition (w_gameState w') = 23 ->
     currentEffect (w_gameState w') = None) /\
    (currentEffect (w_gameState w') <> None ->
     0 < playerPosition (w_gameState w') < 23) /\
    (23 <= playerPosition (w_gameState (tokenOn 22 false))
           + (Js.floorMul (4 # 6) 6 + 1) ->
     playerPosition (w_gameState w') = 23 /\
     isGameOver (w_gameState w') = true /\
     currentEffect (w_gameState w') = None /\
     log (w_gameState w') =
       line_win cleanStreets :: line_finish (Js.floorMul (4 # 6) 6 + 1)
       :: log (w_gameState (tokenOn 22 false)) /\
     w_timers w' = w_timers (tokenOn 22 false)).
Proof.
  repeat (split; [reflexivity |]).
  apply (no_effect_on_start_or_finish cleanStreets stopThrows true (4 # 6) 0
           (tokenOn 22 false));
    reflexivity.
Defined.

(** The card-draw test writes at most one timer. *)
Lemma cardTimers_scheduled (u_card : Q) (tile : TileType)
    (timers : list (Callback * Z)) :
  cardTimers u_card tile timers = (timers ++ [(cb_drawCard, 500)])%list <->
  (u_card < 0.3)%Q \/ mentionsCard (effect tile).
Proof.
  unfold cardTimers.
  rewrite <- mentions_card.
  rewrite <- ltb_lt, <- includes_toLowerCase, <- orb_true_iff.
  destruct (Js.ltb u_card 0.3
            || Js.includes (Js.toLowerCase (effect tile)) "card").
  - split; reflexivity.
  - split; [| discriminate].
    intros E. apply (f_equal (@length _)) in E.
    rewrite length_app in E. simpl in E. lia.
Qed.

(** C6. After an accepted roll that does not win and lands on a tile
    strictly between start and finish, a card draw is scheduled exactly
    when the random number is below 0.3 or the effect text of the tile
    contains the letters c, a, r, d in a row, each of them small or
    capital; for the effect text Draw a card it is scheduled whatever
    the random number. *)
Theorem card_draw_scheduled_iff (design : GameDesign) (env : AudioEnv)
    (soundEnabled : bool) (u_roll u_card : Q) (w : World)
    (newPosition : Z) (tile : TileType) :
  isGameOver (w_gameState w) = false ->
  w_isRolling w = false ->
  newPosition = playerPosition (w_gameState w) + (Js.floorMul u_roll 6 + 1) ->
  0 < newPosition < 23 ->
  tileAt design newPosition = Some tile ->
  exists w',
    rollAction design env soundEnabled u_roll u_card w = (Normal tt, w') /\
    (w_timers w' = (w_timers w ++ [(cb_drawCard, 500)])%list \/
     w_timers w' = w_timers w) /\
    (w_timers w' = (w_timers w ++ [(cb_drawCard, 500)])%list <->
     (u_card < 0.3)%Q \/ mentionsCard (effect tile)) /\
    (effect tile = "Draw a card" ->
     w_timers w' = (w_timers w ++ [(cb_drawCard, 500)])%list).
Proof.
  intros Hover Hroll Hn Hin Htile.
  destruct (rollAction_accepted design env soundEnabled u_roll u_card w
              Hover Hroll) as [w' [Hrun Hstep]].
  exists w'. split; [exact Hrun |].
  destruct Hstep as [roll Hwin | roll new0 tile0 Hin0 Htile0
                    | roll new0 Hmove Hnone];
    cbn [w_timers]; subst roll; try subst new0; rewrite <- Hn in *;
    unfold TOTAL_SPACES in *.
  - lia.
  - assert (tile0 = tile) by congruence. subst tile0.
    split; [| split].
    + unfold cardTimers.
      destruct (Js.ltb u_card 0.3
                || Js.includes (Js.toLowerCase (effect tile)) "card");
        [left | right]; reflexivity.
    + apply cardTimers_scheduled.
    + intros E. unfold cardTimers. rewrite E.
      rewrite orb_true_r. reflexivity.
  - destruct Hnone as [Hle | Hnone]; [lia | congruence].
Qed.

Lemma card_draw_scheduled_iff_witness :
  isGameOver (w_gameState opened) = false /\
  w_isRolling opened = false /\
  4 = playerPosition (w_gameState opened) + (Js.floorMul (3 # 6) 6 + 1) /\
  0 < 4 < 23 /\
  tileAt depotStreets 4 = Some depot /\
  exists w',
    rollAction depotStreets noAudio true (3 # 6) (9 # 10) opened
    = (Normal tt, w') /\
    (w_timers w' = (w_timers opened ++ [(cb_drawCard, 500)])%list \/
     w_timers w' = w_timers opened) /\
    (w_timers w' = (w_timers opened ++ [(cb_drawCard, 500)])%list <->
     (9 # 10 < 0.3)%Q \/ mentionsCard (effect depot)) /\
    (effect depot = "Draw a card" ->
     w_timers w' = (w_timers opened ++ [(cb_drawCard, 500)])%list).
Proof.
  split; [reflexivity |]. split; [reflexivity |]. split; [reflexivity |].
  split; [lia |]. split; [reflexivity |].
  apply (card_draw_scheduled_iff depotStreets noAudio true (3 # 6) (9 # 10)
           opened 4 depot);
    first [reflexivity | lia].
Defined.

(** The effect Take a CARD from the pile spells the word in capitals. *)
Example depot_mentionsCard : mentionsCard (effect depot).
Proof.
  exists "Take a ", "CARD", " from the pile". split; [reflexivity |].
  exists "C"%char, "A"%char, "R"%char, "D"%char.
  repeat split; right; reflexivity.
Qed.

(** The effect Lose a turn does not spell it. *)
Example litter_not_mentionsCard : ~ mentionsCard (effect litter).
Proof.
  rewrite <- mentions_card, <- includes_toLowerCase. discriminate.
Qed.

(** On the capital spelling the draw is scheduled at the random number
    0.9, and on the tile whose effect is Lose a turn it is not. *)
Example depot_schedules_draw :
  w_timers (snd (rollAction depotStreets noAudio true (3 # 6) (9 # 10)
                   opened))
  = [(cb_drawCard, 500)].
Proof. reflexivity. Qed.

Example litter_schedules_none :
  tileAt depotStreets 5 = Some litter /\
  w_timers (snd (rollAction depotStreets noAudio true (4 # 6) (9 # 10)
                   opened))
  = [].
Proof. split; reflexivity. Qed.

(** ** The card draw *)


Lemma length_pos {A : Type} (arr : list A) :
  arr <> [] -> 0 < Z.of_nat (length arr).
Proof. destruct arr; [congruence | simpl; lia]. Qed.



(** The line of the draw is written with character 34 around the
    example, and the second of two types is the one drawn at 0.75. *)
Example drewLine_text :
  drewLine "B" "b1"
  = String.concat EmptyString
      ["🎴 Drew a B: "; String (ascii_of_nat 34) EmptyString; "b1";
       String (ascii_of_nat 34) EmptyString].
Proof. reflexivity. Qed.

Example drawCard_second_type :
  let gs := w_gameState (snd (drawCard cleanStreets stopThrows true
                                (3 # 4) (1 # 2) opened)) in
  drawnCard gs = Some {| drawn_type := "B"; content := Some "b1" |} /\
  log gs = (drewLine "B" "b1" :: log (w_gameState opened))%list.
Proof. split; reflexivity. Qed.

Example drawCard_first_type_second_example :
  let gs := w_gameState (snd (drawCard cleanStreets stopThrows true
                                (1 # 4) (5 # 8) opened)) in
  drawnCard gs = Some {| drawn_type := "A"; content := Some "a2" |} /\
  log gs = (drewLine "A" "a2" :: log (w_gameState opened))%list.
Proof. split; reflexivity. Qed.

(** ** The audio cues *)

Lemma playSfx_no_audio (env : AudioEnv) (t : SfxType) (d : Device) :
  hasAudioContext env = false -> playSfx env t d = (Normal tt, d).
Proof.
  intros H. unfold playSfx, tryCatch, playSfx_try. rewrite H. reflexivity.
Qed.

(** The game left by a roll does not depend on the audio. *)
Lemma Rolled_sameGame (design : GameDesign) (env1 env2 : AudioEnv)
    (sound1 sound2 : bool) (gs : GameState) (u_roll u_card : Q)
    (w w1 w2 : World) :
  Rolled design env1 sound1 gs u_roll u_card w w1 ->
  Rolled design env2 sound2 gs u_roll u_card w w2 ->
  sameGame w1 w2.
Proof.
  intros H1 H2. unfold sameGame.
  destruct H1 as [r1 Hwin1 | r1 n1 tile1 Hin1 Ht1 | r1 n1 Hm1 Hn1];
    destruct H2 as [r2 Hwin2 | r2 n2 tile2 Hin2 Ht2 | r2 n2 Hm2 Hn2];
    cbn [w_gameState w_isRolling w_timers];
    subst r1 r2; try subst n1; try subst n2;
    try (exfalso; lia);
    try (exfalso; destruct Hn1 as [? | ?]; [lia | congruence]);
    try (exfalso; destruct Hn2 as [? | ?]; [lia | congruence]);
    try (repeat split; reflexivity).
  assert (tile1 = tile2) by congruence. subst tile2. repeat split.
Qed.

(** C8. Whatever the cue and whatever the browser (no audio context,
    or any operation of the synthesis throwing), [playSfx] returns
    normally; without an audio context it does nothing at all. So the
    roll action always completes, and it and the card draw leave the
    same game, with the same completion, as with the sound switched
    off. *)
Theorem playSfx_never_throws (env : AudioEnv) (t : SfxType) (d : Device)
    (design : GameDesign) (soundEnabled : bool) (u1 u2 : Q) (w : World) :
  fst (playSfx env t d) = Normal tt /\
  (hasAudioContext env = false -> playSfx env t d = (Normal tt, d)) /\
  fst (rollAction design env soundEnabled u1 u2 w) = Normal tt /\
  sameGame (snd (rollAction design env soundEnabled u1 u2 w))
           (snd (rollAction design env false u1 u2 w)) /\
  fst (drawCard design env soundEnabled u1 u2 w)
  = fst (drawCard design env false u1 u2 w) /\
  sameGame (snd (drawCard design env soundEnabled u1 u2 w))
           (snd (drawCard design env false u1 u2 w)).
Proof.
  split; [| split; [| split; [| split]]].
  - destruct (playSfx_normal env t d) as [d' E]. rewrite E. reflexivity.
  - apply playSfx_no_audio.
  - destruct (isGameOver (w_gameState w)) eqn:Hover.
    + unfold rollAction, handleRoll. rewrite Hover. reflexivity.
    + destruct (w_isRolling w) eqn:Hroll.
      * unfold rollAction, handleRoll. rewrite Hover, Hroll. reflexivity.
      * destruct (rollAction_accepted design env soundEnabled u1 u2 w
                    Hover Hroll) as [w' [E _]].
        rewrite E. reflexivity.
  - destruct (isGameOver (w_gameState w)) eqn:Hover.
    + unfold rollAction, handleRoll. rewrite Hover.
      repeat split.
    + destruct (w_isRolling w) eqn:Hroll.
      * unfold rollAction, handleRoll. rewrite Hover, Hroll.
        repeat split.
      * destruct (rollAction_accepted design env soundEnabled u1 u2 w
                    Hover Hroll) as [w1 [E1 R1]].
        destruct (rollAction_accepted design env false u1 u2 w
                    Hover Hroll) as [w2 [E2 R2]].
        rewrite E1, E2. cbn [snd].
        exact (Rolled_sameGame _ _ _ _ _ _ _ _ _ _ _ R1 R2).
  - unfold drawCard.
    destruct (Z.of_nat (length (cardTypes design)) =? 0).
    + repeat split.
    + rewrite !bind_sound.
      destruct (Js.at_ (cardTypes design)
                  (Some (Js.floorMul u1
                           (Z.of_nat (length (cardTypes design))))))
        as [card |].
      * run. repeat split.
      * repeat split.
Qed.

Lemma playSfx_never_throws_witness :
  fst (playSfx stopThrows sfx_win silentDevice) = Normal tt /\
  (hasAudioContext noAudio = false ->
   playSfx noAudio sfx_win silentDevice = (Normal tt, silentDevice)) /\
  sameGame (snd (rollAction cleanStreets stopThrows true (3 # 6) (1 # 2)
                   opened))
           (snd (rollAction cleanStreets stopThrows false (3 # 6) (1 # 2)
                   opened)).
Proof.
  split; [| split].
  - apply (playSfx_never_throws stopThrows sfx_win silentDevice
             cleanStreets true (3 # 6) (1 # 2) opened).
  - apply (playSfx_never_throws noAudio sfx_win silentDevice
             cleanStreets true (3 # 6) (1 # 2) opened).
  - apply (playSfx_never_throws stopThrows sfx_win silentDevice
             cleanStreets true (3 # 6) (1 # 2) opened).
Defined.

(** The inner throw is real: with oscillators that cannot be stopped
    the synthesis of the chime throws, and [playSfx] reports it on the
    console instead. *)
Example chime_throws_inside :
  fst (playSfx_try stopThrows sfx_tile silentDevice) = Thrown "DOMException"
  /\ fst (playSfx stopThrows sfx_tile silentDevice) = Normal tt
  /\ console (snd (playSfx stopThrows sfx_tile silentDevice))
     = ["Audio playback failed DOMException"].
Proof. repeat split. Qed.

(** ** The layout of the board *)

Lemma row_parity (r : Z) : 0 <= r -> (Z.rem r 2 =? 0) = Z.even r.
Proof.
  intros Hr. rewrite Z.rem_mod_nonneg by lia.
  destruct (Z.even r) eqn:E.
  - apply Z.even_spec in E. destruct E as [k ->].
    rewrite Z.mul_comm, Z_mod_mult. reflexivity.
  - rewrite <- Z.negb_odd, negb_false_iff in E.
    apply Z.odd_spec in E. destruct E as [k ->].
    rewrite Z.add_comm, Z.mul_comm, Z_mod_plus_full. reflexivity.
Qed.

Lemma space_x (design : GameDesign) (i : Z) :
  0 <= i ->
  x (space design i) == layout_x (layout_column (i / 6) (i mod 6)).
Proof.
  intros Hi. unfold space, layout_x, layout_column. cbn [x].
  change (inject_Z cols) with (inject_Z 6).
  rewrite <- Zdiv_Qdiv.
  rewrite row_parity by (apply Z.div_pos; lia).
  unfold cols. rewrite Z.rem_mod_nonneg by lia.
  change (inject_Z (6 - 1)) with 5%Q. change (6 - 1) with 5.
  destruct (Z.even (i / 6)); field.
Qed.

Lemma space_y (design : GameDesign) (i : Z) :
  y (space design i) == layout_y (i / 6).
Proof.
  unfold space, layout_y. cbn [y].
  change (inject_Z cols) with (inject_Z 6).
  rewrite <- Zdiv_Qdiv.
  change (inject_Z (rows - 1)) with 3%Q.
  field.
Qed.

Lemma space_tile (design : GameDesign) (i : Z) :
  0 < i < 23 ->
  tileDetails (space design i) =
  nth_error (tileTypes design)
    (Z.to_nat (i mod Z.of_nat (length (tileTypes design)))).
Proof.
  intros Hi. unfold space. cbn [tileDetails].
  destruct (Z.eqb_spec i 0) as [? | _]; [lia |].
  destruct (Z.eqb_spec i (TOTAL_SPACES - 1)) as [E | _];
    [unfold TOTAL_SPACES in E; lia |].
  cbn [orb]. unfold Js.rem, Js.at_.
  destruct (Z.eqb_spec (Z.of_nat (length (tileTypes design))) 0) as [E | Hne].
  - destruct (tileTypes design); [| discriminate E].
    destruct (Z.to_nat _); reflexivity.
  - rewrite Z.rem_mod_nonneg by lia.
    destruct (Z.ltb_spec (i mod Z.of_nat (length (tileTypes design))) 0)
      as [Hneg | _]; [| reflexivity].
    pose proof (Z.mod_pos_bound i (Z.of_nat (length (tileTypes design)))).
    lia.
Qed.

(** C5. The board has exactly 24 spaces. Space [i] is the
    [(i mod 6)]-th of row [i / 6], rows being read left to right when
    even and right to left when odd; its abscissa is linear in the
    column from 10 to 90 and its ordinate linear in the row from 90
    (row 0, at the bottom) to 10. Space 0 is START, space 23 is FINISH,
    both without a tile, and every other space is NORMAL with the tile
    [tileTypes[i mod tileTypes.length]]. *)
Theorem board_construction (design : GameDesign) (i : Z) :
  0 <= i < 24 ->
  length (spaces design) = 24%nat /\
  exists sp,
    nth_error (spaces design) (Z.to_nat i) = Some sp /\
    x sp == layout_x (layout_column (i / 6) (i mod 6)) /\
    y sp == layout_y (i / 6) /\
    space_type sp =
      (if i =? 0 then START else if i =? 23 then FINISH else NORMAL) /\
    tileDetails sp =
      (if (i =? 0) || (i =? 23) then None
       else nth_error (tileTypes design)
              (Z.to_nat (i mod Z.of_nat (length (tileTypes design))))).
Proof.
  intros Hi. split; [apply spaces_length |].
  exists (space design i).
  pose proof (spaces_at design i Hi) as Hat. unfold Js.at_ in Hat.
  destruct (Z.ltb_spec i 0) as [? | _]; [lia |].
  split; [exact Hat |].
  split; [apply space_x; lia |].
  split; [apply space_y |].
  split; [reflexivity |].
  destruct (Z.eqb_spec i 0) as [E0 | N0].
  - subst i. reflexivity.
  - destruct (Z.eqb_spec i 23) as [E23 | N23].
    + subst i. reflexivity.
    + apply space_tile. lia.
Qed.

Lemma board_construction_witness :
  0 <= 7 < 24 /\
  length (spaces cleanStreets) = 24%nat /\
  exists sp,
    nth_error (spaces cleanStreets) (Z.to_nat 7) = Some sp /\
    x sp == layout_x (layout_column (7 / 6) (7 mod 6)) /\
    y sp == layout_y (7 / 6) /\
    space_type sp =
      (if 7 =? 0 then START else if 7 =? 23 then FINISH else NORMAL) /\
    tileDetails sp =
      (if (7 =? 0) || (7 =? 23) then None
       else nth_error (tileTypes cleanStreets)
              (Z.to_nat (7 mod Z.of_nat (length (tileTypes cleanStreets))))).
Proof.
  split; [lia |].
  apply (board_construction cleanStreets 7). lia.
Defined.

(** The eighth space of the sample board: second row, read right to
    left, so in the fifth column. *)
Example eighth_space :
  option_map (fun sp => (Qred (x sp), Qred (y sp), space_type sp,
                         option_map name (tileDetails sp)))
             (nth_error (spaces cleanStreets) 7)
  = Some (74%Q, (190 # 3)%Q, NORMAL, Some "Litter").
Proof. reflexivity. Qed.

(** C9. The coordinates of the spaces do not depend on the design: any
    two designs, whatever their tile types, give the same list of
    (x, y) pairs, and each pair is a function of the index alone. *)
Theorem layout_independent_of_design (design1 design2 : GameDesign) :
  map (fun sp => (x sp, y sp)) (spaces design1)
  = map (fun sp => (x sp, y sp)) (spaces design2)
  /\ length (spaces design1) = 24%nat
  /\ length (spaces design2) = 24%nat.
Proof.
  split; [| split; apply spaces_length].
  rewrite !spaces_map, !map_map. apply map_ext. intros k. reflexivity.
Qed.

(** Two sample designs that differ in the number of tile types. *)
Example layout_of_two_designs :
  map (fun sp => (x sp, y sp)) (spaces cleanStreets)
  = map (fun sp => (x sp, y sp)) (spaces (sampleDesign [] [])).
Proof. reflexivity. Qed.

(** ** A design without tile types *)

Lemma space_tile_empty (design : GameDesign) (i : Z) :
  tileTypes design = [] -> tileDetails (space design i) = None.
Proof.
  intros H. unfold space. cbn [tileDetails]. rewrite H.
  destruct ((i =? 0) || (i =? TOTAL_SPACES - 1)); reflexivity.
Qed.

Lemma spaces_tile_empty (design : GameDesign) (sp : BoardSpace) :
  tileTypes design = [] -> In sp (spaces design) -> tileDetails sp = None.
Proof.
  intros H Hin. rewrite spaces_map in Hin.
  apply in_map_iff in Hin. destruct Hin as [k [<- _]].
  apply space_tile_empty. exact H.
Qed.

Lemma tileAt_empty (design : GameDesign) (i : Z) :
  tileTypes design = [] -> tileAt design i = None.
Proof.
  intros H. unfold tileAt.
  destruct (Js.at_ (spaces design) (Some i)) as [sp |] eqn:E;
    [| reflexivity].
  apply (spaces_tile_empty design sp H).
  unfold Js.at_ in E. destruct (i <? 0); [discriminate E |].
  apply nth_error_In in E. exact E.
Qed.

(** C10. With no tile type in the design nothing fails: the board still
    has its 24 spaces, none of them with a tile, and an accepted roll
    completes without taking the tile branch: no effect is set, the log
    gets the roll result (and the win condition when the game ends) but
    no tile line, and no card draw is scheduled. *)
Theorem empty_tileTypes_is_safe (design : GameDesign) (env : AudioEnv)
    (soundEnabled : bool) (u_roll u_card : Q) (w : World) :
  tileTypes design = [] ->
  isGameOver (w_gameState w) = false ->
  w_isRolling w = false ->
  length (spaces design) = 24%nat /\
  (forall sp, In sp (spaces design) -> tileDetails sp = None) /\
  exists w',
    rollAction design env soundEnabled u_roll u_card w = (Normal tt, w') /\
    currentEffect (w_gameState w') = None /\
    w_timers w' = w_timers w /\
    (log (w_gameState w') =
       line_win design :: line_finish (Js.floorMul u_roll 6 + 1)
       :: log (w_gameState w)
     \/
     log (w_gameState w') =
       line_moved (Js.floorMul u_roll 6 + 1)
         (playerPosition (w_gameState w) + (Js.floorMul u_roll 6 + 1))
       :: log (w_gameState w)).
Proof.
  intros Hempty Hover Hroll.
  split; [apply spaces_length |].
  split; [intros sp; apply spaces_tile_empty; exact Hempty |].
  destruct (rollAction_accepted design env soundEnabled u_roll u_card w
              Hover Hroll) as [w' [Hrun Hstep]].
  exists w'. split; [exact Hrun |].
  destruct Hstep as [roll Hwin | roll newPosition tile Hin Htile
                    | roll newPosition Hmove Hnone];
    cbn [w_gameState w_timers currentEffect log].
  - repeat split. left. reflexivity.
  - rewrite tileAt_empty in Htile by exact Hempty. discriminate Htile.
  - repeat split. right. reflexivity.
Qed.

Lemma empty_tileTypes_is_safe_witness :
  tileTypes (sampleDesign [] sampleCards) = [] /\
  isGameOver (w_gameState opened) = false /\
  w_isRolling opened = false /\
  length (spaces (sampleDesign [] sampleCards)) = 24%nat /\
  (forall sp,
     In sp (spaces (sampleDesign [] sampleCards)) -> tileDetails sp = None) /\
  exists w',
    rollAction (sampleDesign [] sampleCards) stopThrows true (3 # 6) 0 opened
    = (Normal tt, w') /\
    currentEffect (w_gameState w') = None /\
    w_timers w' = w_timers opened /\
    (log (w_gameState w') =
       line_win (sampleDesign [] sampleCards)
       :: line_finish (Js.floorMul (3 # 6) 6 + 1)
       :: log (w_gameState opened)
     \/
     log (w_gameState w') =
       line_moved (Js.floorMul (3 # 6) 6 + 1)
         (playerPosition (w_gameState opened) + (Js.floorMul (3 # 6) 6 + 1))
       :: log (w_gameState opened)).
Proof.
  repeat (split; [reflexivity |]).
  apply (empty_tileTypes_is_safe (sampleDesign [] sampleCards) stopThrows true
           (3 # 6) 0 opened);
    reflexivity.
Defined.

(** * Further properties of the code *)

(** ** The board as a path *)

Lemma layout_x_affine (c : Z) : layout_x c == inject_Z (10 + 16 * c).
Proof.
  unfold layout_x. rewrite inject_Z_plus, inject_Z_mult.
  change (inject_Z 10) with 10%Q. change (inject_Z 16) with 16%Q. field.
Qed.

Lemma layout_y_affine (r : Z) : layout_y r == inject_Z (270 - 80 * r) / 3.
Proof.
  unfold layout_y, Z.sub.
  rewrite inject_Z_plus, inject_Z_opp, inject_Z_mult.
  change (inject_Z 270) with 270%Q. change (inject_Z 80) with 80%Q. field.
Qed.

Lemma layout_x_inj (c1 c2 : Z) : layout_x c1 == layout_x c2 -> c1 = c2.
Proof. rewrite !layout_x_affine, inject_Z_injective. lia. Qed.

Lemma layout_y_inj (r1 r2 : Z) : layout_y r1 == layout_y r2 -> r1 = r2.
Proof.
  rewrite !layout_y_affine. intros H.
  assert (E : inject_Z (270 - 80 * r1) == inject_Z (270 - 80 * r2)).
  { apply (Qmult_inj_r _ _ (/ 3)); [discriminate | exact H]. }
  apply (proj1 (inject_Z_injective _ _)) in E. lia.
Qed.

Lemma layout_x_bounds (c : Z) :
  0 <= c <= 5 -> (10 <= layout_x c)%Q /\ (layout_x c <= 90)%Q.
Proof.
  intros H. rewrite layout_x_affine.
  change 10%Q with (inject_Z 10). change 90%Q with (inject_Z 90).
  rewrite <- !Zle_Qle. lia.
Qed.

Lemma layout_y_bounds (r : Z) :
  0 <= r <= 3 -> (10 <= layout_y r)%Q /\ (layout_y r <= 90)%Q.
Proof.
  intros H. rewrite layout_y_affine. split.
  - apply Qle_shift_div_l; [reflexivity |].
    change (10 * 3)%Q with (inject_Z 30). rewrite <- Zle_Qle. lia.
  - apply Qle_shift_div_r; [reflexivity |].
    change (90 * 3)%Q with (inject_Z 270). rewrite <- Zle_Qle. lia.
Qed.

Lemma layout_column_range (r k : Z) :
  0 <= k <= 5 -> 0 <= layout_column r k <= 5.
Proof. intros H. unfold layout_column. destruct (Z.even r); lia. Qed.

(** The [k]-th element of [spaces] is the space built for index [k]. *)
Lemma nth_error_spaces (design : GameDesign) (k : nat) (sp : BoardSpace) :
  nth_error (spaces design) k = Some sp ->
  sp = space design (Z.of_nat k) /\ (k < 24)%nat.
Proof.
  rewrite spaces_map, nth_error_map, nth_error_seq.
  change (Z.to_nat TOTAL_SPACES) with 24%nat.
  destruct (Nat.ltb_spec k 24) as [Hlt | Hge]; simpl; [| discriminate].
  intros E. injection E as <-. split; [reflexivity | exact Hlt].
Qed.

(** X1. Every space of the board lies between 10 and 90 on both axes. *)
Theorem spaces_inside_the_board (design : GameDesign) (k : nat)
    (sp : BoardSpace) :
  nth_error (spaces design) k = Some sp ->
  (10 <= x sp)%Q /\ (x sp <= 90)%Q /\ (10 <= y sp)%Q /\ (y sp <= 90)%Q.
Proof.
  intros H. destruct (nth_error_spaces design k sp H) as [-> Hk].
  rewrite space_x by lia. rewrite space_y.
  pose proof (Z.mod_pos_bound (Z.of_nat k) 6) as Hm.
  assert (Hr : 0 <= Z.of_nat k / 6 <= 3).
  { split; [apply Z.div_pos; lia |].
    apply Z.lt_succ_r. apply Z.div_lt_upper_bound; lia. }
  destruct (layout_x_bounds
              (layout_column (Z.of_nat k / 6) (Z.of_nat k mod 6))) as [A B];
    [apply layout_column_range; lia |].
  destruct (layout_y_bounds (Z.of_nat k / 6) Hr) as [C D].
  repeat split; assumption.
Qed.

Lemma spaces_inside_the_board_witness :
  nth_error (spaces cleanStreets) 7 = Some (space cleanStreets 7) /\
  (10 <= x (space cleanStreets 7))%Q /\
  (x (space cleanStreets 7) <= 90)%Q /\
  (10 <= y (space cleanStreets 7))%Q /\
  (y (space cleanStreets 7) <= 90)%Q.
Proof.
  split; [reflexivity |].
  apply (spaces_inside_the_board cleanStreets 7 (space cleanStreets 7)).
  reflexivity.
Defined.

(** X2. No two spaces of the board share their coordinates. *)
Theorem spaces_do_not_overlap (design : GameDesign) (i j : nat)
    (sp1 sp2 : BoardSpace) :
  nth_error (spaces design) i = Some sp1 ->
  nth_error (spaces design) j = Some sp2 ->
  x sp1 == x sp2 ->
  y sp1 == y sp2 ->
  i = j.
Proof.
  intros H1 H2.
  destruct (nth_error_spaces design i sp1 H1) as [-> Hi].
  destruct (nth_error_spaces design j sp2 H2) as [-> Hj].
  rewrite !space_x by lia. rewrite !space_y.
  intros Hx Hy. apply layout_x_inj in Hx. apply layout_y_inj in Hy.
  unfold layout_column in Hx. rewrite Hy in Hx.
  assert (Hm : Z.of_nat i mod 6 = Z.of_nat j mod 6)
    by (destruct (Z.even (Z.of_nat j / 6)); lia).
  pose proof (Z.div_mod (Z.of_nat i) 6) as Di.
  pose proof (Z.div_mod (Z.of_nat j) 6) as Dj.
  lia.
Qed.

Lemma spaces_do_not_overlap_witness :
  nth_error (spaces cleanStreets) 7 = Some (space cleanStreets 7) /\
  nth_error (spaces cleanStreets) 7 = Some (space cleanStreets 7) /\
  x (space cleanStreets 7) == x (space cleanStreets 7) /\
  y (space cleanStreets 7) == y (space cleanStreets 7) /\
  7%nat = 7%nat.
Proof.
  repeat (split; [reflexivity |]).
  apply (spaces_do_not_overlap cleanStreets 7 7
           (space cleanStreets 7) (space cleanStreets 7));
    reflexivity.
Defined.

(** Two spaces of one row of the sample board have the same ordinate
    and are told apart by their abscissa. *)
Example same_row_different_column :
  y (space cleanStreets 7) == y (space cleanStreets 8) /\
  ~ x (space cleanStreets 7) == x (space cleanStreets 8).
Proof. split; [reflexivity | discriminate]. Qed.

Ltac qeq := vm_compute; reflexivity.

Ltac neighbour :=
  first
    [ left; split; [qeq | first [left; qeq | right; qeq]]
    | right; split; qeq ].

(** X3. The board is a connected path: the space after a space is its
    neighbour on the grid, one column (16 units) to the left or right on
    the same row, or one row (80/3 units) further up in the same
    column. *)
Theorem consecutive_spaces_are_neighbours (design : GameDesign) (k : nat)
    (sp sp' : BoardSpace) :
  nth_error (spaces design) k = Some sp ->
  nth_error (spaces design) (S k) = Some sp' ->
  (y sp' == y sp /\ (x sp' == x sp + 16 \/ x sp' == x sp - 16)) \/
  (x sp' == x sp /\ y sp' == y sp - (80 # 3)).
Proof.
  intros H H'.
  destruct (nth_error_spaces design k sp H) as [-> _].
  destruct (nth_error_spaces design (S k) sp' H') as [-> Hk].
  clear H H'.
  do 23 (destruct k as [| k]; [neighbour |]).
  lia.
Qed.

Lemma consecutive_spaces_are_neighbours_witness :
  nth_error (spaces cleanStreets) 5 = Some (space cleanStreets 5) /\
  nth_error (spaces cleanStreets) 6 = Some (space cleanStreets 6) /\
  ((y (space cleanStreets 6) == y (space cleanStreets 5) /\
    (x (space cleanStreets 6) == x (space cleanStreets 5) + 16 \/
     x (space cleanStreets 6) == x (space cleanStreets 5) - 16)) \/
   (x (space cleanStreets 6) == x (space cleanStreets 5) /\
    y (space cleanStreets 6) == y (space cleanStreets 5) - (80 # 3))).
Proof.
  repeat (split; [reflexivity |]).
  apply (consecutive_spaces_are_neighbours cleanStreets 5
           (space cleanStreets 5) (space cleanStreets 6));
    reflexivity.
Defined.

(** ** Tiles on the board *)

Lemma tileAt_inner (design : GameDesign) (i : Z) :
  0 < i < 23 ->
  tileAt design i =
  nth_error (tileTypes design)
    (Z.to_nat (i mod Z.of_nat (length (tileTypes design)))).
Proof.
  intros Hi. unfold tileAt.
  rewrite spaces_at by (unfold TOTAL_SPACES; lia).
  apply space_tile. exact Hi.
Qed.

Lemma tileAt_some_inner (design : GameDesign) (i : Z) (tile : TileType) :
  tileAt design i = Some tile -> 0 < i < 23.
Proof.
  intros H.
  destruct (Z_le_gt_dec i 0) as [Hle | Hgt].
  - rewrite tileAt_nonpos in H by exact Hle. discriminate H.
  - destruct (Z_lt_le_dec i 23) as [Hlt | Hge]; [lia |].
    exfalso. unfold tileAt, Js.at_ in H.
    destruct (Z.ltb_spec i 0) as [? | _]; [lia |].
    destruct (nth_error (spaces design) (Z.to_nat i)) as [sp |] eqn:E;
      [| discriminate H].
    destruct (nth_error_spaces design _ sp E) as [-> Hk].
    assert (Ei : Z.of_nat (Z.to_nat i) = 23) by lia.
    rewrite Ei in H. unfold space in H. cbn in H. discriminate H.
Qed.

(** X4. When the design has at least one tile type, every space strictly
    between start and finish carries a tile, taken from the tile types
    of the design, and the same tile comes back every
    [tileTypes.length] spaces. *)
Theorem inner_spaces_carry_tiles (design : GameDesign) (i : Z) :
  tileTypes design <> [] ->
  0 < i < 23 ->
  exists tile,
    tileAt design i = Some tile /\
    In tile (tileTypes design) /\
    (i + Z.of_nat (length (tileTypes design)) < 23 ->
     tileAt design (i + Z.of_nat (length (tileTypes design))) = Some tile).
Proof.
  intros Hne Hi.
  pose proof (length_pos _ Hne) as Hlen.
  pose proof (Z.mod_pos_bound i _ Hlen) as Hm.
  destruct (nth_error (tileTypes design)
              (Z.to_nat (i mod Z.of_nat (length (tileTypes design)))))
    as [tile |] eqn:E.
  - exists tile. split; [rewrite tileAt_inner by exact Hi; exact E |].
    split; [apply nth_error_In in E; exact E |].
    intros Hnext. rewrite tileAt_inner by lia.
    rewrite <- (Z.mul_1_l (Z.of_nat (length (tileTypes design)))) at 1.
    rewrite Z_mod_plus_full. exact E.
  - apply nth_error_None in E. lia.
Qed.

Lemma inner_spaces_carry_tiles_witness :
  tileTypes cleanStreets <> [] /\
  0 < 4 < 23 /\
  exists tile,
    tileAt cleanStreets 4 = Some tile /\
    In tile (tileTypes cleanStreets) /\
    (4 + Z.of_nat (length (tileTypes cleanStreets)) < 23 ->
     tileAt cleanStreets (4 + Z.of_nat (length (tileTypes cleanStreets)))
     = Some tile).
Proof.
  split; [discriminate |]. split; [lia |].
  apply (inner_spaces_carry_tiles cleanStreets 4); [discriminate | lia].
Defined.

(** X5. A design with at most 22 tile types shows each of them on some
    space of the board. *)
Theorem every_tile_type_is_on_the_board (design : GameDesign)
    (tile : TileType) :
  (length (tileTypes design) <= 22)%nat ->
  In tile (tileTypes design) ->
  exists i, 0 < i < 23 /\ tileAt design i = Some tile.
Proof.
  intros Hlen Hin.
  apply In_nth_error in Hin. destruct Hin as [k Hk].
  assert (Hklt : (k < length (tileTypes design))%nat)
    by (apply nth_error_Some; congruence).
  destruct k as [| k].
  - exists (Z.of_nat (length (tileTypes design))).
    split; [lia |]. rewrite tileAt_inner by lia.
    rewrite Z_mod_same_full. exact Hk.
  - exists (Z.of_nat (S k)). split; [lia |].
    rewrite tileAt_inner by lia.
    rewrite Z.mod_small by lia. rewrite Nat2Z.id. exact Hk.
Qed.

Lemma every_tile_type_is_on_the_board_witness :
  (length (tileTypes cleanStreets) <= 22)%nat /\
  In recycle (tileTypes cleanStreets) /\
  exists i, 0 < i < 23 /\ tileAt cleanStreets i = Some recycle.
Proof.
  split; [simpl; lia |]. split; [simpl; left; reflexivity |].
  apply (every_tile_type_is_on_the_board cleanStreets recycle);
    [simpl; lia | simpl; left; reflexivity].
Defined.

(** X6. With 23 tile types or more, all different, the first tile type
    is on no space of the board: space [i] takes the tile type of index
    [i], and index 0 is the start. *)
Theorem first_tile_type_is_left_out (design : GameDesign) (first : TileType)
    (i : Z) :
  (23 <= length (tileTypes design))%nat ->
  NoDup (tileTypes design) ->
  nth_error (tileTypes design) 0 = Some first ->
  tileAt design i <> Some first.
Proof.
  intros Hlen Hnodup Hfirst H.
  pose proof (tileAt_some_inner design i first H) as Hi.
  rewrite tileAt_inner in H by exact Hi.
  rewrite Z.mod_small in H by lia.
  assert (E : Z.to_nat i = 0%nat).
  { apply (proj1 (NoDup_nth_error (tileTypes design)) Hnodup);
      [lia | congruence]. }
  lia.
Qed.

Lemma first_tile_type_is_left_out_witness :
  (23 <= length (tileTypes (sampleDesign (numberedTiles 23) [])))%nat /\
  NoDup (tileTypes (sampleDesign (numberedTiles 23) [])) /\
  nth_error (tileTypes (sampleDesign (numberedTiles 23) [])) 0
  = Some {| name := "0"; effect := "Move on"; color := "#cbd5e1" |} /\
  tileAt (sampleDesign (numberedTiles 23) []) 1
  <> Some {| name := "0"; effect := "Move on"; color := "#cbd5e1" |}.
Proof.
  assert (Hnodup : NoDup (tileTypes (sampleDesign (numberedTiles 23) []))).
  { vm_compute.
    repeat (constructor; [simpl; intuition discriminate |]).
    constructor. }
  split; [simpl; lia |]. split; [exact Hnodup |]. split; [reflexivity |].
  apply (first_tile_type_is_left_out (sampleDesign (numberedTiles 23) [])
           {| name := "0"; effect := "Move on"; color := "#cbd5e1" |} 1);
    [simpl; lia | exact Hnodup | reflexivity].
Defined.

(** ** More on the roll and the card draw *)

(** X7. An accepted roll takes exactly one turn, hands the dice back
    ([isRolling] is false again), takes the drawn card away, and leaves
    as current effect the effect of the tile under the token, none when
    the token is on a space without tile. *)
Theorem accepted_roll_takes_one_turn (design : GameDesign) (env : AudioEnv)
    (soundEnabled : bool) (u_roll u_card : Q) (w : World) :
  isGameOver (w_gameState w) = false ->
  w_isRolling w = false ->
  exists w',
    rollAction design env soundEnabled u_roll u_card w = (Normal tt, w') /\
    turn (w_gameState w') = turn (w_gameState w) + 1 /\
    w_isRolling w' = false /\
    drawnCard (w_gameState w') = None /\
    currentEffect (w_gameState w') =
      option_map effect (tileAt design (playerPosition (w_gameState w'))).
Proof.
  intros Hover Hroll.
  destruct (rollAction_accepted design env soundEnabled u_roll u_card w
              Hover Hroll) as [w' [Hrun Hstep]].
  exists w'. split; [exact Hrun |].
  destruct Hstep as [roll Hwin | roll newPosition tile Hin Htile
                    | roll newPosition Hmove Hnone];
    cbn [w_gameState w_isRolling turn drawnCard currentEffect
         playerPosition].
  - repeat split.
  - rewrite Htile. repeat split.
  - destruct Hnone as [Hle | Hnone].
    + rewrite tileAt_nonpos by exact Hle. repeat split.
    + rewrite Hnone. repeat split.
Qed.

Lemma accepted_roll_takes_one_turn_witness :
  isGameOver (w_gameState opened) = false /\
  w_isRolling opened = false /\
  exists w',
    rollAction cleanStreets stopThrows true (3 # 6) (1 # 2) opened
    = (Normal tt, w') /\
    turn (w_gameState w') = turn (w_gameState opened) + 1 /\
    w_isRolling w' = false /\
    drawnCard (w_gameState w') = None /\
    currentEffect (w_gameState w') =
      option_map effect
        (tileAt cleanStreets (playerPosition (w_gameState w'))).
Proof.
  split; [reflexivity |]. split; [reflexivity |].
  apply (accepted_roll_takes_one_turn cleanStreets stopThrows true
           (3 # 6) (1 # 2) opened);
    reflexivity.
Defined.

(** X8. A card type without examples does not stop the card draw: the
    draw completes, the card shown has that type and no content, and
    the line in the log quotes the word undefined. *)
Theorem drawCard_without_examples (design : GameDesign) (env : AudioEnv)
    (soundEnabled : bool) (u_type u_example : Q) (w : World)
    (card : CardType) :
  Js.at_ (cardTypes design)
    (Some (Js.floorMul u_type (Z.of_nat (length (cardTypes design)))))
  = Some card ->
  examples card = [] ->
  exists w',
    drawCard design env soundEnabled u_type u_example w = (Normal tt, w') /\
    drawnCard (w_gameState w') =
      Some {| drawn_type := type card; content := None |} /\
    log (w_gameState w') =
      ("🎴 Drew a " ++ type card ++ ": " ++ Js.dquote ++ "undefined"
       ++ Js.dquote)%string
      :: log (w_gameState w).
Proof.
  intros Hat Hex. unfold drawCard.
  destruct (Z.eqb_spec (Z.of_nat (length (cardTypes design))) 0) as [E | _].
  - destruct (cardTypes design); [| discriminate E].
    unfold Js.at_ in Hat.
    destruct (Js.floorMul u_type (Z.of_nat (length (@nil CardType))) <? 0);
      [discriminate Hat |].
    destruct (Z.to_nat _); discriminate Hat.
  - run. rewrite Hat, Hex. run.
    unfold addToLog, setGameState.
    cbn [w_gameState drawnCard log].
    eexists. split; [reflexivity |].
    cbn [w_gameState drawnCard log]. unfold Js.at_.
    destruct (Js.floorMul u_example (Z.of_nat (length (@nil string))) <? 0);
      [split; reflexivity |].
    destruct (Z.to_nat _); split; reflexivity.
Qed.

Lemma drawCard_without_examples_witness :
  Js.at_ (cardTypes blankCards)
    (Some (Js.floorMul (1 # 2) (Z.of_nat (length (cardTypes blankCards)))))
  = Some {| type := "Quiz"; description := "to be written";
            examples := [] |} /\
  examples {| type := "Quiz"; description := "to be written";
              examples := [] |} = [] /\
  exists w',
    drawCard blankCards noAudio true (1 # 2) (1 # 2) opened
    = (Normal tt, w') /\
    drawnCard (w_gameState w') =
      Some {| drawn_type := "Quiz"; content := None |} /\
    log (w_gameState w') =
      ("🎴 Drew a " ++ "Quiz" ++ ": " ++ Js.dquote ++ "undefined"
       ++ Js.dquote)%string
      :: log (w_gameState opened).
Proof.
  split; [reflexivity |]. split; [reflexivity |].
  apply (drawCard_without_examples blankCards noAudio true (1 # 2) (1 # 2)
           opened
           {| type := "Quiz"; description := "to be written";
              examples := [] |});
    reflexivity.
Defined.

(** ** Sequences of rolls *)

Lemma rollActions_over (design : GameDesign) (env : AudioEnv)
    (soundEnabled : bool) (rolls : list (Q * Q)) (w : World) :
  isGameOver (w_gameState w) = true ->
  rollActions design env soundEnabled rolls w = w.
Proof.
  intros Hover. induction rolls as [| [u1 u2] rolls IH]; [reflexivity |].
  cbn [rollActions]. unfold rollAction at 1, handleRoll.
  rewrite Hover. exact IH.
Qed.

(** One accepted roll of a fair die: the game ends, or the token moves
    on by 1 to 6 spaces and stays before the finish. *)
Lemma fair_roll_step (design : GameDesign) (env : AudioEnv)
    (soundEnabled : bool) (u_roll u_card : Q) (w : World) :
  isGameOver (w_gameState w) = false ->
  w_isRolling w = false ->
  (0 <= u_roll)%Q -> (u_roll < 1)%Q ->
  exists w',
    rollAction design env soundEnabled u_roll u_card w = (Normal tt, w') /\
    w_isRolling w' = false /\
    turn (w_gameState w') = turn (w_gameState w) + 1 /\
    ((isGameOver (w_gameState w') = true /\
      playerPosition (w_gameState w') = 23 /\
      23 <= playerPosition (w_gameState w) + 6)
     \/
     (isGameOver (w_gameState w') = false /\
      playerPosition (w_gameState w) + 1 <= playerPosition (w_gameState w') /\
      playerPosition (w_gameState w') <= playerPosition (w_gameState w) + 6 /\
      playerPosition (w_gameState w') < 23)).
Proof.
  intros Hover Hroll H0 H1.
  pose proof (die_range u_roll H0 H1) as Hdie.
  destruct (rollAction_accepted design env soundEnabled u_roll u_card w
              Hover Hroll) as [w' [Hrun Hstep]].
  exists w'. split; [exact Hrun |].
  destruct Hstep as [roll Hwin | roll newPosition tile Hin Htile
                    | roll newPosition Hmove Hnone];
    cbn [w_gameState w_isRolling turn isGameOver playerPosition];
    subst roll; try subst newPosition; unfold TOTAL_SPACES in *;
    (split; [reflexivity |]); (split; [reflexivity |]).
  - left. repeat split; lia.
  - right. rewrite Hover. repeat split; lia.
  - right. rewrite Hover. repeat split; lia.
Qed.

(** X9. The game cannot go on for ever: from a state whose token is on
    space [p], any sequence of at least [23 - p] rolls of a fair die
    ends with the game over (23 rolls from the start at most). *)
Theorem enough_rolls_end_the_game (design : GameDesign) (env : AudioEnv)
    (soundEnabled : bool) (rolls : list (Q * Q)) (w : World) :
  fairRolls rolls ->
  w_isRolling w = false ->
  (isGameOver (w_gameState w) = false ->
   playerPosition (w_gameState w) < 23) ->
  23 <= playerPosition (w_gameState w) + Z.of_nat (length rolls) ->
  isGameOver
    (w_gameState (rollActions design env soundEnabled rolls w)) = true.
Proof.
  intros Hfair. revert w.
  induction Hfair as [| [u1 u2] rolls [H0 H1] Hfair IH];
    intros w Hroll Hinv Hlen.
  - cbn [rollActions]. cbn [length] in Hlen.
    destruct (isGameOver (w_gameState w)); [reflexivity |].
    specialize (Hinv eq_refl). lia.
  - destruct (isGameOver (w_gameState w)) eqn:Hover.
    + rewrite rollActions_over by exact Hover. exact Hover.
    + cbn [rollActions].
      destruct (fair_roll_step design env soundEnabled u1 u2 w
                  Hover Hroll H0 H1)
        as [w' [Hrun [Hr' [_ Hcases]]]].
      rewrite Hrun. cbn [snd].
      destruct Hcases as [[Hover' _] | [Hover' [Hlo [_ Hlt]]]].
      * rewrite rollActions_over by exact Hover'. exact Hover'.
      * apply IH; [exact Hr' | intros _; exact Hlt |].
        cbn [length] in Hlen. lia.
Qed.

(** X10. The game cannot end early: while 6 spaces for each roll do not
    reach the finish, every roll of a fair die is accepted, the game is
    still running after the last of them, and the turn counter has
    counted them all. *)
Theorem few_rolls_do_not_end_the_game (design : GameDesign) (env : AudioEnv)
    (soundEnabled : bool) (rolls : list (Q * Q)) (w : World) :
  fairRolls rolls ->
  isGameOver (w_gameState w) = false ->
  w_isRolling w = false ->
  playerPosition (w_gameState w) + 6 * Z.of_nat (length rolls) < 23 ->
  isGameOver
    (w_gameState (rollActions design env soundEnabled rolls w)) = false /\
  turn (w_gameState (rollActions design env soundEnabled rolls w))
  = turn (w_gameState w) + Z.of_nat (length rolls) /\
  playerPosition (w_gameState w) + Z.of_nat (length rolls)
  <= playerPosition
       (w_gameState (rollActions design env soundEnabled rolls w)) /\
  playerPosition (w_gameState (rollActions design env soundEnabled rolls w))
  <= playerPosition (w_gameState w) + 6 * Z.of_nat (length rolls).
Proof.
  intros Hfair. revert w.
  induction Hfair as [| [u1 u2] rolls [H0 H1] Hfair IH];
    intros w Hover Hroll Hlen.
  - cbn [rollActions length]. repeat split; [exact Hover | lia | lia | lia].
  - cbn [rollActions]. cbn [length] in *.
    destruct (fair_roll_step design env soundEnabled u1 u2 w
                Hover Hroll H0 H1)
      as [w' [Hrun [Hr' [Hturn Hcases]]]].
    rewrite Hrun. cbn [snd].
    destruct Hcases as [[_ [_ Hwin]] | [Hover' [Hlo [Hhi Hlt]]]]; [lia |].
    destruct (IH w' Hover' Hr') as [A [B [C D]]]; [lia |].
    repeat split; [exact A | lia | lia | lia].
Qed.

Ltac fair_rolls :=
  repeat (constructor;
          [split; [unfold Qle; simpl; lia | reflexivity] |]);
  constructor.

Lemma enough_rolls_end_the_game_witness :
  fairRolls [(0, 0); (1 # 6, 0); (0, 1 # 2)]%Q /\
  w_isRolling (tokenOn 20 false) = false /\
  (isGameOver (w_gameState (tokenOn 20 false)) = false ->
   playerPosition (w_gameState (tokenOn 20 false)) < 23) /\
  23 <= playerPosition (w_gameState (tokenOn 20 false))
        + Z.of_nat (length [(0, 0); (1 # 6, 0); (0, 1 # 2)]%Q) /\
  isGameOver
    (w_gameState
       (rollActions cleanStreets noAudio true
          [(0, 0); (1 # 6, 0); (0, 1 # 2)]%Q (tokenOn 20 false))) = true.
Proof.
  split; [fair_rolls |]. split; [reflexivity |].
  split; [intros _; reflexivity |]. split; [simpl; lia |].
  apply (enough_rolls_end_the_game cleanStreets noAudio true
           [(0, 0); (1 # 6, 0); (0, 1 # 2)]%Q (tokenOn 20 false));
    [fair_rolls | reflexivity | intros _; reflexivity | simpl; lia].
Defined.

Lemma few_rolls_do_not_end_the_game_witness :
  fairRolls [(5 # 6, 0); (5 # 6, 0); (5 # 6, 0)]%Q /\
  isGameOver (w_gameState opened) = false /\
  w_isRolling opened = false /\
  playerPosition (w_gameState opened)
  + 6 * Z.of_nat (length [(5 # 6, 0); (5 # 6, 0); (5 # 6, 0)]%Q) < 23 /\
  isGameOver
    (w_gameState
       (rollActions cleanStreets noAudio true
          [(5 # 6, 0); (5 # 6, 0); (5 # 6, 0)]%Q opened)) = false /\
  turn (w_gameState
          (rollActions cleanStreets noAudio true
             [(5 # 6, 0); (5 # 6, 0); (5 # 6, 0)]%Q opened))
  = turn (w_gameState opened)
    + Z.of_nat (length [(5 # 6, 0); (5 # 6, 0); (5 # 6, 0)]%Q).
Proof.
  split; [fair_rolls |]. split; [reflexivity |]. split; [reflexivity |].
  split; [simpl; lia |].
  destruct (few_rolls_do_not_end_the_game cleanStreets noAudio true
              [(5 # 6, 0); (5 # 6, 0); (5 # 6, 0)]%Q opened)
    as [A [B _]];
    [fair_rolls | reflexivity | reflexivity | simpl; lia |].
  split; [exact A | exact B].
Defined.

(** Three sixes from the start: the token is on space 18 (the 19th) at
    turn 4, and the game goes on. *)
Example three_sixes :
  w_gameState
    (rollActions (sampleDesign [] []) noAudio true
       [(5 # 6, 0); (5 # 6, 0); (5 # 6, 0)]%Q opened)
  = {| playerPosition := 18;
       log := ["🎲 Rolled a 6. Moved to space 19.";
               "🎲 Rolled a 6. Moved to space 13.";
               "🎲 Rolled a 6. Moved to space 7.";
               "Welcome to the Playtest! Roll the dice to begin."];
       turn := 4;
       isGameOver := false;
       currentEffect := None;
       drawnCard := None |}.
Proof. reflexivity. Qed.


(** ** The roll across its animation delay, and the event loop *)

(** [handleRoll] is its first half, the delay, and its second half. *)
Lemma handleRoll_split (design : GameDesign) (env : AudioEnv)
    (soundEnabled : bool) (gs : GameState) (isRolling : bool)
    (u_roll u_card : Q) (w : World) :
  handleRoll design env soundEnabled gs isRolling u_roll u_card w =
  bind (handleRoll_begin env soundEnabled gs isRolling)
       (fun accepted =>
          if accepted
          then delay 600 ;;
               handleRoll_resume design env soundEnabled gs u_roll u_card
          else ret tt) w.
Proof.
  unfold handleRoll, handleRoll_begin.
  destruct (isGameOver gs || isRolling); [reflexivity |].
  run. reflexivity.
Qed.

(** The first half of an accepted roll. *)
Lemma handleRoll_begin_run (env : AudioEnv) (soundEnabled : bool)
    (gs : GameState) (w : World) :
  isGameOver gs = false ->
  handleRoll_begin env soundEnabled gs false w =
  (Normal true,
   {| w_gameState :=
        {| playerPosition := playerPosition (w_gameState w);
           log := log (w_gameState w);
           turn := turn (w_gameState w);
           isGameOver := isGameOver (w_gameState w);
           currentEffect := None;
           drawnCard := None |};
      w_isRolling := true;
      w_timers := w_timers w;
      w_device := sound env soundEnabled sfx_roll (w_device w) |}).
Proof.
  intros Hover. unfold handleRoll_begin. rewrite Hover. cbn [orb].
  run. reflexivity.
Qed.

(** The second half completes, along the win path or the move path. *)
Lemma handleRoll_resume_run (design : GameDesign) (env : AudioEnv)
    (soundEnabled : bool) (gs : GameState) (u_roll u_card : Q) (w : World) :
  exists w',
    handleRoll_resume design env soundEnabled gs u_roll u_card w
    = (Normal tt, w') /\
    w_isRolling w' = false /\
    turn (w_gameState w') = turn (w_gameState w) + 1 /\
    drawnCard (w_gameState w') = drawnCard (w_gameState w) /\
    log (w_gameState w') <> [] /\
    ((23 <= playerPosition gs + (Js.floorMul u_roll 6 + 1) /\
      playerPosition (w_gameState w') = 23 /\
      isGameOver (w_gameState w') = true /\
      w_timers w' = w_timers w)
     \/
     (playerPosition gs + (Js.floorMul u_roll 6 + 1) < 23 /\
      playerPosition (w_gameState w')
      = playerPosition gs + (Js.floorMul u_roll 6 + 1) /\
      isGameOver (w_gameState w') = isGameOver (w_gameState w) /\
      (w_timers w' = w_timers w \/
       w_timers w' = (w_timers w ++ [(cb_drawCard, 500)])%list))).
Proof.
  unfold handleRoll_resume. cbv zeta.
  set (roll := Js.floorMul u_roll 6 + 1).
  set (newPosition := playerPosition gs + roll).
  destruct (Z.geb_spec newPosition (TOTAL_SPACES - 1)) as [Hwin | Hmove].
  - run.
    replace ((TOTAL_SPACES - 1 <? TOTAL_SPACES - 1) && (TOTAL_SPACES - 1 >? 0))
      with false by reflexivity.
    eexists. split; [reflexivity |].
    cbn [w_gameState w_isRolling w_timers playerPosition log turn
         isGameOver drawnCard].
    unfold TOTAL_SPACES in *.
    repeat (split; [first [reflexivity | discriminate] |]).
    left. repeat split. lia.
  - run.
    destruct (Z.ltb_spec newPosition (TOTAL_SPACES - 1)) as [_ | ?]; [| lia].
    cbn [andb]. unfold TOTAL_SPACES in *.
    destruct (Z.gtb_spec newPosition 0) as [Hpos | Hnonpos].
    + rewrite spaces_at by (unfold TOTAL_SPACES; lia).
      destruct (tileDetails (space design newPosition)) as [tile |].
      * run.
        destruct (Js.ltb u_card 0.3
                  || Js.includes (Js.toLowerCase (effect tile)) "card");
          (eexists; split; [reflexivity |]);
          cbn [w_gameState w_isRolling w_timers playerPosition log turn
               isGameOver drawnCard];
          repeat (split; [first [reflexivity | discriminate] |]);
          right; (split; [lia |]); repeat (split; [reflexivity |]);
          [right | left]; reflexivity.
      * eexists. split; [reflexivity |].
        cbn [w_gameState w_isRolling w_timers playerPosition log turn
             isGameOver drawnCard].
        repeat (split; [first [reflexivity | discriminate] |]).
        right. split; [lia |]. repeat (split; [reflexivity |]).
        left; reflexivity.
    + eexists. split; [reflexivity |].
      cbn [w_gameState w_isRolling w_timers playerPosition log turn
           isGameOver drawnCard].
      repeat (split; [first [reflexivity | discriminate] |]).
      right. split; [lia |]. repeat (split; [reflexivity |]).
      left; reflexivity.
Qed.

(** The card draw writes the card and the log, nothing else of the
    game, whether it completes or throws. *)
Lemma drawCard_frame (design : GameDesign) (env : AudioEnv)
    (soundEnabled : bool) (u_type u_example : Q) (w : World) :
  playerPosition
    (w_gameState (snd (drawCard design env soundEnabled u_type u_example w)))
  = playerPosition (w_gameState w) /\
  turn (w_gameState (snd (drawCard design env soundEnabled u_type u_example w)))
  = turn (w_gameState w) /\
  isGameOver
    (w_gameState (snd (drawCard design env soundEnabled u_type u_example w)))
  = isGameOver (w_gameState w) /\
  currentEffect
    (w_gameState (snd (drawCard design env soundEnabled u_type u_example w)))
  = currentEffect (w_gameState w) /\
  w_isRolling (snd (drawCard design env soundEnabled u_type u_example w))
  = w_isRolling w /\
  w_timers (snd (drawCard design env soundEnabled u_type u_example w))
  = w_timers w /\
  (log (w_gameState w) <> [] ->
   log (w_gameState
          (snd (drawCard design env soundEnabled u_type u_example w))) <> []).
Proof.
  unfold drawCard.
  destruct (Z.of_nat (length (cardTypes design)) =? 0).
  - repeat split. intros H; exact H.
  - rewrite bind_sound.
    destruct (Js.at_ (cardTypes design)
                (Some (Js.floorMul u_type
                         (Z.of_nat (length (cardTypes design))))))
      as [card |].
    + run. repeat split. intros _. discriminate.
    + repeat split. intros H; exact H.
Qed.

Lemma mounted_invariant (d : Device) : Invariant (mounted d).
Proof.
  unfold Invariant, mounted. cbn.
  repeat split; try lia; try discriminate.
  left. split; reflexivity.
Qed.

Lemma step_invariant (design : GameDesign) (env : AudioEnv)
    (soundEnabled : bool) (l l' : Loop) (e : Event) :
  Invariant l ->
  fairEvent e ->
  step design env soundEnabled l e = Some l' ->
  Invariant l'.
Proof.
  intros [Htimers [Hpos [Hturn [Hover [Hlog Hq]]]]] Hfair Hstep.
  destruct e as [| | k u1 u2]; cbn [step] in Hstep.
  - (* click_roll *)
    unfold rollButtonDisabled in Hstep.
    destruct (w_isRolling (store l)) eqn:Hroll; [discriminate Hstep |].
    destruct (isGameOver (w_gameState (store l))) eqn:Ho;
      [discriminate Hstep |].
    cbn [orb] in Hstep.
    rewrite handleRoll_begin_run in Hstep by exact Ho.
    injection Hstep as <-. unfold register, Invariant.
    cbn [store queue w_gameState w_isRolling w_timers playerPosition turn
         isGameOver log].
    rewrite Htimers. cbn [map]. rewrite app_nil_r.
    split; [reflexivity |]. split; [exact Hpos |]. split; [exact Hturn |].
    split; [rewrite Ho; exact Hover |]. split; [exact Hlog |].
    right; right. cbn [store queue w_gameState w_isRolling isGameOver].
    split; [reflexivity |]. split; [exact Ho |].
    exists (w_gameState (store l)).
    split; [split; [exact Ho | reflexivity] |].
    destruct Hq as [[_ Eq] | [[_ [_ Eq]] | [Hr _]]];
      [| | congruence]; rewrite Eq; [left | right]; reflexivity.
  - (* click_reset *)
    unfold playAgainShown in Hstep.
    destruct (isGameOver (w_gameState (store l))) eqn:Ho;
      [| discriminate Hstep].
    injection Hstep as <-. unfold register, Invariant.
    cbn. rewrite Htimers. cbn [map]. rewrite app_nil_r.
    split; [reflexivity |]. split; [lia |]. split; [lia |].
    split; [split; [discriminate | lia] |]. split; [discriminate |].
    left. cbn.
    destruct Hq as [[Hr Eq] | [[_ [Hf _]] | [_ [Hf _]]]];
      [| congruence | congruence].
    split; assumption.
  - (* timer_fires *)
    destruct Hfair as [Hu0 [Hu1 _]].
    destruct Hq as [[Hr Eq] | [[Hr [Ho Eq]] | [Hr [Ho [g [[Hg Hgp] Eq]]]]]].
    + rewrite Eq in Hstep. unfold mayFire in Hstep.
      destruct k; discriminate Hstep.
    + rewrite Eq in Hstep. unfold mayFire in Hstep.
      destruct k as [| k]; [| destruct k; discriminate Hstep].
      cbn [nth_error firstn forallb skipn app runTask] in Hstep.
      injection Hstep as <-.
      destruct (drawCard_frame design env soundEnabled u1 u2 (store l))
        as [Dp [Dt [Do [_ [Dr [Dtm Dl]]]]]].
      unfold register, Invariant. cbn [store queue w_gameState w_isRolling
        w_timers]. rewrite Dtm, Htimers, Dp, Dt, Do.
      split; [reflexivity |]. split; [exact Hpos |]. split; [exact Hturn |].
      split; [exact Hover |]. split; [apply Dl; exact Hlog |].
      left. cbn [store queue w_isRolling]. rewrite Dr.
      split; [exact Hr | reflexivity].
    + destruct Eq as [Eq | Eq]; rewrite Eq in Hstep; unfold mayFire in Hstep.
      * destruct k as [| k]; [| destruct k; discriminate Hstep].
        cbn [nth_error firstn forallb skipn app runTask] in Hstep.
        injection Hstep as <-.
        destruct (handleRoll_resume_run design env soundEnabled g u1 u2
                    (store l))
          as [w' [Hrun [Rr [Rt [_ [Rl Rcases]]]]]].
        rewrite Hrun. cbn [snd].
        pose proof (die_range u1 Hu0 Hu1) as Hdie.
        unfold register, Invariant.
        cbn [store queue w_gameState w_isRolling w_timers app].
        split; [reflexivity |].
        destruct Rcases as [[Hwin [Rp [Ro Rtm]]] | [Hmove [Rp [Ro Rtm]]]].
        -- rewrite Rp, Ro, Rt, Rtm, Htimers.
           split; [lia |]. split; [lia |].
           split; [split; reflexivity |]. split; [exact Rl |].
           left. cbn [store queue w_isRolling].
           split; [exact Rr | reflexivity].
        -- rewrite Rp, Ro, Rt, Ho.
           split; [lia |]. split; [lia |].
           split; [split; [discriminate | lia] |]. split; [exact Rl |].
           destruct Rtm as [Rtm | Rtm]; rewrite Rtm, Htimers.
           ++ left. cbn [store queue w_isRolling].
              split; [exact Rr | reflexivity].
           ++ right; left. cbn [store queue w_gameState w_isRolling].
              split; [exact Rr |]. split; [rewrite Ro; exact Ho |].
              reflexivity.
      * destruct k as [| k].
        -- cbn [nth_error firstn forallb skipn app runTask] in Hstep.
           injection Hstep as <-.
           destruct (drawCard_frame design env soundEnabled u1 u2 (store l))
             as [Dp [Dt [Do [_ [Dr [Dtm Dl]]]]]].
           unfold register, Invariant. cbn [store queue w_gameState
             w_isRolling w_timers]. rewrite Dtm, Htimers, Dp, Dt, Do.
           split; [reflexivity |]. split; [exact Hpos |].
           split; [exact Hturn |].
           split; [exact Hover |]. split; [apply Dl; exact Hlog |].
           right; right. cbn [store queue w_gameState w_isRolling].
           rewrite Dr, Do.
           split; [exact Hr |]. split; [exact Ho |].
           exists g. split; [| left; reflexivity].
           split; [exact Hg |]. cbn [store w_gameState]. rewrite Dp.
           exact Hgp.
        -- destruct k as [| k]; [cbn in Hstep; discriminate Hstep |].
           destruct k; cbn in Hstep; discriminate Hstep.
Qed.

Lemma reachable_invariant (design : GameDesign) (env : AudioEnv)
    (soundEnabled : bool) (l : Loop) :
  Reachable design env soundEnabled l -> Invariant l.
Proof.
  intros H. induction H as [d | l l' e _ IH Hfair Hstep].
  - apply mounted_invariant.
  - exact (step_invariant design env soundEnabled l l' e IH Hfair Hstep).
Qed.

(** X11. Whatever the user does, the token stays on the board, the turn
    counter stays at 1 or more, the log is never empty, and the game
    is over exactly when the token is on the last space. *)
Theorem reachable_game_is_well_formed (design : GameDesign)
    (env : AudioEnv) (soundEnabled : bool) (l : Loop) :
  Reachable design env soundEnabled l ->
  0 <= playerPosition (w_gameState (store l)) <= 23 /\
  1 <= turn (w_gameState (store l)) /\
  log (w_gameState (store l)) <> [] /\
  (isGameOver (w_gameState (store l)) = true <->
   playerPosition (w_gameState (store l)) = 23).
Proof.
  intros H.
  destruct (reachable_invariant design env soundEnabled l H)
    as [_ [Hpos [Hturn [Hover [Hlog _]]]]].
  repeat split; try assumption; try lia; apply Hover.
Qed.

(** X12. Once the game is over nothing is left waiting, no roll is
    under way, and the only event that can happen is the click on Play
    Again, which starts the game anew. *)
Theorem only_reset_after_game_over (design : GameDesign)
    (env : AudioEnv) (soundEnabled : bool) (l : Loop) :
  Reachable design env soundEnabled l ->
  isGameOver (w_gameState (store l)) = true ->
  queue l = [] /\
  w_isRolling (store l) = false /\
  (forall e l', step design env soundEnabled l e = Some l' ->
                e = click_reset) /\
  exists l',
    step design env soundEnabled l click_reset = Some l' /\
    queue l' = [] /\
    w_gameState (store l') =
      {| playerPosition := 0;
         log := ["Game reset. Ready to start!"];
         turn := 1;
         isGameOver := false;
         currentEffect := None;
         drawnCard := None |}.
Proof.
  intros H Hover.
  destruct (reachable_invariant design env soundEnabled l H)
    as [Htimers [_ [_ [_ [_ Hq]]]]].
  destruct Hq as [[Hr Eq] | [[_ [Hf _]] | [_ [Hf _]]]];
    [| congruence | congruence].
  split; [exact Eq |]. split; [exact Hr |]. split.
  - intros e l' Hstep. destruct e as [| | k u1 u2]; [| reflexivity |].
    + cbn [step] in Hstep. unfold rollButtonDisabled in Hstep.
      rewrite Hover, orb_true_r in Hstep. discriminate Hstep.
    + cbn [step] in Hstep. rewrite Eq in Hstep. unfold mayFire in Hstep.
      destruct k; discriminate Hstep.
  - eexists. cbn [step]. unfold playAgainShown. rewrite Hover.
    split; [reflexivity |].
    unfold register. cbn [store queue w_gameState resetGame setGameState snd
                          w_timers].
    rewrite Eq, Htimers. split; reflexivity.
Qed.


Lemma runEvents_reachable (design : GameDesign) (env : AudioEnv)
    (soundEnabled : bool) (events : list Event) :
  forall l l',
    Reachable design env soundEnabled l ->
    Forall fairEvent events ->
    runEvents design env soundEnabled events l = Some l' ->
    Reachable design env soundEnabled l'.
Proof.
  induction events as [| e events IH]; intros l l' Hl Hfair Hrun.
  - injection Hrun as <-. exact Hl.
  - cbn [runEvents] in Hrun.
    destruct (step design env soundEnabled l e) as [l1 |] eqn:Hstep;
      [| discriminate Hrun].
    inversion Hfair as [| e0 es0 He Hes]; subst.
    apply (IH l1 l'); [| exact Hes | exact Hrun].
    exact (Reachable_step design env soundEnabled l l1 e Hl He Hstep).
Qed.

Example fourSixes_run :
  (w_gameState (store (afterEvents fourSixes)), queue (afterEvents fourSixes))
  = ({| playerPosition := 23;
        log := ["🏆 First to the depot wins.";
                "🎲 Rolled a 6. Reached the Finish!";
                "🎴 Drew a B: " ++ Js.dquote ++ "b1" ++ Js.dquote;
                "📍 Landed on Recycle: Draw a card";
                "🎲 Rolled a 6. Moved to space 19.";
                "🎴 Drew a A: " ++ Js.dquote ++ "a2" ++ Js.dquote;
                "📍 Landed on Recycle: Draw a card";
                "🎲 Rolled a 6. Moved to space 13.";
                "🎴 Drew a B: " ++ Js.dquote ++ "b1" ++ Js.dquote;
                "📍 Landed on Recycle: Draw a card";
                "🎲 Rolled a 6. Moved to space 7.";
                "Welcome to the Playtest! Roll the dice to begin."]%string;
        turn := 5;
        isGameOver := true;
        currentEffect := None;
        drawnCard := Some {| drawn_type := "B"; content := Some "b1" |} |},
      []).
Proof. vm_compute. reflexivity. Qed.

Lemma fourSixes_reachable :
  Reachable cleanStreets stopThrows true (afterEvents fourSixes).
Proof.
  apply (runEvents_reachable cleanStreets stopThrows true fourSixes
           (mounted silentDevice) (afterEvents fourSixes)).
  - apply Reachable_mounted.
  - unfold fourSixes.
    repeat (constructor;
            [first [exact I
                   | cbn [fairEvent]; unfold Qle, Qlt; simpl; lia] |]).
    constructor.
  - vm_compute. reflexivity.
Defined.

Lemma reachable_game_is_well_formed_witness :
  Reachable cleanStreets stopThrows true (afterEvents fourSixes) /\
  0 <= playerPosition (w_gameState (store (afterEvents fourSixes))) <= 23 /\
  1 <= turn (w_gameState (store (afterEvents fourSixes))) /\
  log (w_gameState (store (afterEvents fourSixes))) <> [] /\
  (isGameOver (w_gameState (store (afterEvents fourSixes))) = true <->
   playerPosition (w_gameState (store (afterEvents fourSixes))) = 23).
Proof.
  split; [exact fourSixes_reachable |].
  apply (reachable_game_is_well_formed cleanStreets stopThrows true
           (afterEvents fourSixes)).
  exact fourSixes_reachable.
Defined.

Lemma only_reset_after_game_over_witness :
  Reachable cleanStreets stopThrows true (afterEvents fourSixes) /\
  isGameOver (w_gameState (store (afterEvents fourSixes))) = true /\
  queue (afterEvents fourSixes) = [] /\
  w_isRolling (store (afterEvents fourSixes)) = false /\
  (forall e l',
     step cleanStreets stopThrows true (afterEvents fourSixes) e = Some l' ->
     e = click_reset).
Proof.
  split; [exact fourSixes_reachable |].
  split; [vm_compute; reflexivity |].
  destruct (only_reset_after_game_over cleanStreets stopThrows true
              (afterEvents fourSixes))
    as [A [B [C _]]];
    [exact fourSixes_reachable | vm_compute; reflexivity |].
  split; [exact A |]. split; [exact B | exact C].
Defined.


(** X13. Without anything in between, a click on the roll button and
    the timer of its animation make of the store what [handleRoll] run
    in one go makes of it: the timers it set are in the queue. *)
Theorem click_then_timer_is_rollAction (design : GameDesign)
    (env : AudioEnv) (soundEnabled : bool) (u_roll u_card : Q) (l : Loop) :
  rollButtonDisabled (w_gameState (store l)) (w_isRolling (store l)) = false ->
  w_timers (store l) = [] ->
  queue l = [] ->
  exists l1,
    step design env soundEnabled l click_roll = Some l1 /\
    step design env soundEnabled l1 (timer_fires 0 u_roll u_card)
    = Some (register
              (snd (rollAction design env soundEnabled u_roll u_card
                      (store l))) []).
Proof.
  intros Hbutton Htimers Hqueue.
  unfold rollButtonDisabled in Hbutton.
  apply orb_false_iff in Hbutton. destruct Hbutton as [Hroll Hover].
  eexists. split.
  - cbn [step]. unfold rollButtonDisabled. rewrite Hroll, Hover. cbn [orb].
    rewrite handleRoll_begin_run by exact Hover. reflexivity.
  - unfold rollAction. rewrite handleRoll_split, Hroll.
    unfold bind at 1. rewrite handleRoll_begin_run by exact Hover.
    rewrite bind_delay.
    unfold register at 2. rewrite Hqueue, Htimers.
    cbn [step store queue app map mayFire nth_error firstn forallb skipn
         runTask w_gameState w_isRolling w_timers w_device].
    reflexivity.
Qed.

Lemma click_then_timer_is_rollAction_witness :
  rollButtonDisabled (w_gameState (store (mounted silentDevice)))
    (w_isRolling (store (mounted silentDevice))) = false /\
  w_timers (store (mounted silentDevice)) = [] /\
  queue (mounted silentDevice) = [] /\
  exists l1,
    step cleanStreets stopThrows true (mounted silentDevice) click_roll
    = Some l1 /\
    step cleanStreets stopThrows true l1 (timer_fires 0 (3 # 6) (9 # 10))
    = Some (register
              (snd (rollAction cleanStreets stopThrows true (3 # 6) (9 # 10)
                      (store (mounted silentDevice)))) []).
Proof.
  repeat (split; [reflexivity |]).
  apply (click_then_timer_is_rollAction cleanStreets stopThrows true
           (3 # 6) (9 # 10) (mounted silentDevice));
    reflexivity.
Defined.

(** X14. At most two timers wait at any time, and only the oldest can
    fire: the card draw a roll has scheduled happens before the next
    roll moves the token. A roll that waits for its animation closed
    over the position the token still has, so that moving the token
    from the position of the closure moves it from where it is. *)
Theorem timers_fire_in_order (design : GameDesign) (env : AudioEnv)
    (soundEnabled : bool) (l : Loop) :
  Reachable design env soundEnabled l ->
  (length (queue l) <= 2)%nat /\
  (forall k u1 u2 l',
     step design env soundEnabled l (timer_fires k u1 u2) = Some l' ->
     k = 0%nat) /\
  (forall k g ms,
     nth_error (queue l) k = Some (task_resume g, ms) ->
     w_isRolling (store l) = true /\
     isGameOver g = false /\
     playerPosition g = playerPosition (w_gameState (store l))).
Proof.
  intros H.
  destruct (reachable_invariant design env soundEnabled l H)
    as [_ [_ [_ [_ [_ Hq]]]]].
  destruct Hq as [[Hr Eq] | [[Hr [Ho Eq]] | [Hr [Ho [g [[Hg Hgp] Eq]]]]]].
  - rewrite Eq. split; [simpl; lia |]. split.
    + intros k u1 u2 l' Hstep. cbn [step] in Hstep. rewrite Eq in Hstep.
      unfold mayFire in Hstep. destruct k; discriminate Hstep.
    + intros k g ms Hk. destruct k; discriminate Hk.
  - rewrite Eq. split; [simpl; lia |]. split.
    + intros k u1 u2 l' Hstep. cbn [step] in Hstep. rewrite Eq in Hstep.
      unfold mayFire in Hstep.
      destruct k as [| k]; [reflexivity |]. destruct k; discriminate Hstep.
    + intros k g ms Hk. destruct k as [| k]; [discriminate Hk |].
      destruct k; discriminate Hk.
  - destruct Eq as [Eq | Eq]; rewrite Eq; (split; [simpl; lia |]); split.
    + intros k u1 u2 l' Hstep. cbn [step] in Hstep. rewrite Eq in Hstep.
      unfold mayFire in Hstep.
      destruct k as [| k]; [reflexivity |]. destruct k; discriminate Hstep.
    + intros k g0 ms Hk. destruct k as [| k]; [| destruct k; discriminate Hk].
      injection Hk as <- _. repeat split; assumption.
    + intros k u1 u2 l' Hstep. cbn [step] in Hstep. rewrite Eq in Hstep.
      unfold mayFire in Hstep.
      destruct k as [| k]; [reflexivity |].
      destruct k as [| k]; [cbn in Hstep; discriminate Hstep |].
      destruct k; discriminate Hstep.
    + intros k g0 ms Hk. destruct k as [| k]; [discriminate Hk |].
      destruct k as [| k]; [| destruct k; discriminate Hk].
      injection Hk as <- _. repeat split; assumption.
Qed.

(** X15. A roll under way always completes: while [isRolling] is true
    the oldest timer can fire, and after at most two timers, whatever
    their random numbers, the dice are handed back. *)
Theorem roll_under_way_completes (design : GameDesign) (env : AudioEnv)
    (soundEnabled : bool) (l : Loop) (u1 u2 u3 u4 : Q) :
  Reachable design env soundEnabled l ->
  w_isRolling (store l) = true ->
  exists l1,
    step design env soundEnabled l (timer_fires 0 u1 u2) = Some l1 /\
    (w_isRolling (store l1) = false \/
     exists l2,
       step design env soundEnabled l1 (timer_fires 0 u3 u4) = Some l2 /\
       w_isRolling (store l2) = false).
Proof.
  intros H Hrolling.
  destruct (reachable_invariant design env soundEnabled l H)
    as [_ [_ [_ [_ [_ Hq]]]]].
  destruct Hq as [[Hr _] | [[Hr _] | [_ [_ [g [_ Eq]]]]]];
    [congruence | congruence |].
  destruct Eq as [Eq | Eq].
  - eexists. split.
    + cbn [step]. rewrite Eq. cbn. reflexivity.
    + left.
      destruct (handleRoll_resume_run design env soundEnabled g u1 u2
                  (store l)) as [w' [Hrun [Rr _]]].
      rewrite Hrun. cbn. exact Rr.
  - eexists. split.
    + cbn [step]. rewrite Eq. cbn. reflexivity.
    + right. eexists. split.
      * cbn [step register queue store].
        rewrite (proj1 (proj2 (proj2 (proj2 (proj2 (proj2
                   (drawCard_frame design env soundEnabled u1 u2
                      (store l)))))))).
        destruct (reachable_invariant design env soundEnabled l H)
          as [Htimers _].
        rewrite Htimers. cbn. reflexivity.
      * destruct (handleRoll_resume_run design env soundEnabled g u3 u4
                    {| w_gameState :=
                         w_gameState
                           (snd (drawCard design env soundEnabled u1 u2
                                   (store l)));
                       w_isRolling :=
                         w_isRolling
                           (snd (drawCard design env soundEnabled u1 u2
                                   (store l)));
                       w_timers := [];
                       w_device :=
                         w_device
                           (snd (drawCard design env soundEnabled u1 u2
                                   (store l))) |})
          as [w' [Hrun [Rr _]]].
        rewrite Hrun. cbn. exact Rr.
Qed.

(** X16. In every state the user can bring about the indicator of the
    current tile is evaluated without error, and it shows a tile
    exactly when the game is not over and the space of the token has
    that tile. *)
Theorem tile_indicator_never_throws (design : GameDesign) (env : AudioEnv)
    (soundEnabled : bool) (l : Loop) :
  Reachable design env soundEnabled l ->
  exists shown,
    currentTileIndicator design (w_gameState (store l)) = Normal shown /\
    forall tile,
      shown = Some tile <->
      isGameOver (w_gameState (store l)) = false /\
      tileAt design (playerPosition (w_gameState (store l))) = Some tile.
Proof.
  intros H.
  destruct (reachable_invariant design env soundEnabled l H)
    as [_ [Hpos _]].
  unfold currentTileIndicator.
  destruct (isGameOver (w_gameState (store l))) eqn:Hover; cbn [negb].
  - exists None. split; [reflexivity |].
    intros tile. split; [discriminate | intros [E _]; discriminate E].
  - assert (Hat := spaces_at design (playerPosition (w_gameState (store l)))).
    unfold tileAt. rewrite Hat by (unfold TOTAL_SPACES; lia).
    eexists. split; [reflexivity |].
    intros tile. split; [intros E; split; [reflexivity | exact E] |].
    intros [_ E]. exact E.
Qed.


Ltac fair_events :=
  repeat (constructor;
          [first [exact I
                 | cbn [fairEvent]; unfold Qle, Qlt; simpl; lia] |]);
  constructor.

Lemma afterEvents_reachable (events : list Event) :
  Forall fairEvent events ->
  Reachable cleanStreets stopThrows true (afterEvents events).
Proof.
  intros Hfair. unfold afterEvents.
  destruct (runEvents cleanStreets stopThrows true events
              (mounted silentDevice)) as [l |] eqn:E.
  - exact (runEvents_reachable cleanStreets stopThrows true events
             (mounted silentDevice) l (Reachable_mounted _ _ _ _) Hfair E).
  - apply Reachable_mounted.
Defined.

Lemma secondClick_reachable :
  Reachable cleanStreets stopThrows true (afterEvents secondClick).
Proof. apply afterEvents_reachable. unfold secondClick. fair_events. Defined.

Example secondClick_queue :
  queue (afterEvents secondClick)
  = [ (task_drawCard, 500);
      (task_resume
         {| playerPosition := 6;
            log := ["📍 Landed on Recycle: Draw a card";
                    "🎲 Rolled a 6. Moved to space 7.";
                    "Welcome to the Playtest! Roll the dice to begin."];
            turn := 2;
            isGameOver := false;
            currentEffect := Some "Draw a card";
            drawnCard := None |}, 600) ].
Proof. vm_compute. reflexivity. Qed.

Lemma timers_fire_in_order_witness :
  Reachable cleanStreets stopThrows true (afterEvents secondClick) /\
  (length (queue (afterEvents secondClick)) <= 2)%nat /\
  (forall k u1 u2 l',
     step cleanStreets stopThrows true (afterEvents secondClick)
       (timer_fires k u1 u2) = Some l' ->
     k = 0%nat).
Proof.
  split; [exact secondClick_reachable |].
  destruct (timers_fire_in_order cleanStreets stopThrows true
              (afterEvents secondClick) secondClick_reachable)
    as [A [B _]].
  split; [exact A | exact B].
Defined.

Lemma roll_under_way_completes_witness :
  Reachable cleanStreets stopThrows true (afterEvents secondClick) /\
  w_isRolling (store (afterEvents secondClick)) = true /\
  exists l1,
    step cleanStreets stopThrows true (afterEvents secondClick)
      (timer_fires 0 (1 # 2) 0) = Some l1 /\
    (w_isRolling (store l1) = false \/
     exists l2,
       step cleanStreets stopThrows true l1 (timer_fires 0 (5 # 6) (9 # 10))
       = Some l2 /\
       w_isRolling (store l2) = false).
Proof.
  split; [exact secondClick_reachable |].
  split; [vm_compute; reflexivity |].
  apply (roll_under_way_completes cleanStreets stopThrows true
           (afterEvents secondClick) (1 # 2) 0 (5 # 6) (9 # 10));
    [exact secondClick_reachable | vm_compute; reflexivity].
Defined.

Lemma tile_indicator_never_throws_witness :
  Reachable cleanStreets stopThrows true (afterEvents secondClick) /\
  exists shown,
    currentTileIndicator cleanStreets
      (w_gameState (store (afterEvents secondClick))) = Normal shown /\
    forall tile,
      shown = Some tile <->
      isGameOver (w_gameState (store (afterEvents secondClick))) = false /\
      tileAt cleanStreets
        (playerPosition (w_gameState (store (afterEvents secondClick))))
      = Some tile.
Proof.
  split; [exact secondClick_reachable |].
  apply (tile_indicator_never_throws cleanStreets stopThrows true
           (afterEvents secondClick)).
  exact secondClick_reachable.
Defined.

(** Outside of the board the indicator does throw: the guarantee rests
    on the position staying within the 24 spaces. *)
Example indicator_throws_off_the_board :
  currentTileIndicator cleanStreets (w_gameState (tokenOn 24 false))
  = Thrown "TypeError: spaces[gameState.playerPosition] is undefined".
Proof. reflexivity. Qed.


(** ** The cues, operation by operation *)

Lemma bind_ext {S A B : Type} (m m' : Prog S A) (k k' : A -> Prog S B)
    (s : S) :
  m s = m' s -> (forall a s', k a s' = k' a s') -> bind m k s = bind m' k' s.
Proof.
  intros Hm Hk. unfold bind. rewrite Hm.
  destruct (m' s) as [[a | e] s']; [apply Hk | reflexivity].
Qed.

Lemma bind_ret_r {S : Type} (m : Prog S unit) (s : S) :
  bind m (fun _ => ret tt) s = m s.
Proof. unfold bind. destruct (m s) as [[[] | e] s']; reflexivity. Qed.

Lemma callAll_app (env : AudioEnv) (cs1 cs2 : list AudioCall) (d : Device) :
  callAll env (cs1 ++ cs2) d
  = bind (callAll env cs1) (fun _ => callAll env cs2) d.
Proof.
  revert d. induction cs1 as [| c cs1 IH]; intros d; [reflexivity |].
  cbn [callAll app]. rewrite bind_assoc.
  apply bind_ext; [reflexivity | intros _ d'; apply IH].
Qed.

Lemma createOsc_callAll (env : AudioEnv) (t : OscillatorType)
    (freq startTime duration vol : Q) (d : Device) :
  createOsc env t freq startTime duration vol d
  = callAll env (oscCalls t freq startTime duration vol) d.
Proof.
  unfold createOsc, oscCalls. cbn [callAll].
  repeat (apply bind_ext; [reflexivity | intros _ ?]).
  symmetry. apply bind_ret_r.
Qed.

(** With an audio context, the body of [playSfx] performs the
    operations of the cue one after the other. *)
Lemma playSfx_try_callAll (env : AudioEnv) (t : SfxType) (d : Device) :
  hasAudioContext env = true ->
  playSfx_try env t d = callAll env (cueCalls (currentTime env) t) d.
Proof.
  intros H. unfold playSfx_try. rewrite H. cbn [negb].
  unfold cueCalls. cbn [callAll].
  apply bind_ext; [reflexivity |]. intros _ d'. cbv zeta.
  destruct t.
  - rewrite callAll_app.
    apply bind_ext; [apply createOsc_callAll |]. intros _ d1.
    rewrite callAll_app.
    apply bind_ext; [apply createOsc_callAll |]. intros _ d2.
    apply createOsc_callAll.
  - cbn [callAll].
    repeat (apply bind_ext; [reflexivity | intros _ ?]).
    symmetry. apply bind_ret_r.
  - cbn [callAll].
    repeat (apply bind_ext; [reflexivity | intros _ ?]).
    symmetry. apply bind_ret_r.
  - cbn [forEach]. rewrite callAll_app.
    apply bind_ext; [apply createOsc_callAll |]. intros _ d1.
    rewrite callAll_app.
    apply bind_ext; [apply createOsc_callAll |]. intros _ d2.
    rewrite callAll_app.
    apply bind_ext; [apply createOsc_callAll |]. intros _ d3.
    rewrite bind_ret_r. apply createOsc_callAll.
  - apply createOsc_callAll.
Qed.

(** A list of operations runs up to its first operation that throws. *)
Lemma callAll_spec (env : AudioEnv) (cs : list AudioCall) :
  forall d,
  exists done rest,
    cs = (done ++ rest)%list /\
    calls (snd (callAll env cs d)) = (calls d ++ done)%list /\
    console (snd (callAll env cs d)) = console d /\
    ((rest = [] /\ fst (callAll env cs d) = Normal tt)
     \/
     (exists c rest',
        rest = c :: rest' /\
        throws env (calls d ++ done) c = true /\
        fst (callAll env cs d) = Thrown "DOMException")).
Proof.
  induction cs as [| c cs IH]; intros d.
  - exists [], []. cbn. rewrite app_nil_r. repeat split. left. split; reflexivity.
  - cbn [callAll]. unfold bind, call.
    destruct (throws env (calls d) c) eqn:Hthrow.
    + exists [], (c :: cs). cbn. rewrite app_nil_r. repeat split.
      right. exists c, cs. repeat split. exact Hthrow.
    + destruct (IH {| calls := calls d ++ [c]; console := console d |})
        as [done [rest [E [Hcalls [Hconsole Hcases]]]]].
      cbn [calls console] in *.
      exists (c :: done), rest.
      split; [cbn; congruence |].
      split; [rewrite Hcalls, <- app_assoc; reflexivity |].
      split; [exact Hconsole |].
      destruct Hcases as [[Hr Hn] | [c' [rest' [Hr [Ht Hn]]]]].
      * left. split; assumption.
      * right. exists c', rest'. repeat split; try assumption.
        rewrite <- app_assoc in Ht. exact Ht.
Qed.

(** The operations [playSfx] adds are the first ones of the cue. *)
Lemma playSfx_calls_prefix (env : AudioEnv) (t : SfxType) (d : Device) :
  hasAudioContext env = true ->
  exists done rest,
    cueCalls (currentTime env) t = (done ++ rest)%list /\
    calls (snd (playSfx env t d)) = (calls d ++ done)%list.
Proof.
  intros H.
  destruct (callAll_spec env (cueCalls (currentTime env) t) d)
    as [done [rest [E [Hcalls _]]]].
  exists done, rest. split; [exact E |].
  unfold playSfx, tryCatch. rewrite playSfx_try_callAll by exact H.
  destruct (callAll env (cueCalls (currentTime env) t) d) as [[[] | e] d'];
    exact Hcalls.
Qed.

(** X17. With an audio context, [playSfx] performs the operations of
    the cue in their order up to the first one that throws; when none
    throws the console stays as it was, and when one does the rest of
    the cue is dropped and the failure is reported on the console, once. *)
Theorem playSfx_stops_at_first_failure (env : AudioEnv) (t : SfxType)
    (d : Device) :
  hasAudioContext env = true ->
  exists done rest,
    cueCalls (currentTime env) t = (done ++ rest)%list /\
    calls (snd (playSfx env t d)) = (calls d ++ done)%list /\
    ((rest = [] /\ console (snd (playSfx env t d)) = console d)
     \/
     (exists c rest',
        rest = c :: rest' /\
        throws env (calls d ++ done) c = true /\
        console (snd (playSfx env t d))
        = (console d ++ ["Audio playback failed DOMException"])%list)).
Proof.
  intros H.
  destruct (callAll_spec env (cueCalls (currentTime env) t) d)
    as [done [rest [E [Hcalls [Hconsole Hcases]]]]].
  exists done, rest. split; [exact E |].
  unfold playSfx, tryCatch. rewrite playSfx_try_callAll by exact H.
  destruct (callAll env (cueCalls (currentTime env) t) d) as [[[] | e] d'].
  - cbn [snd fst] in *. split; [exact Hcalls |].
    destruct Hcases as [[Hr _] | [c [rest' [_ [_ Hn]]]]];
      [| discriminate Hn].
    left. split; assumption.
  - cbn [snd fst] in *. unfold console_error. cbn [snd calls console].
    split; [exact Hcalls |].
    destruct Hcases as [[_ Hn] | [c [rest' [Hr [Ht Hn]]]]];
      [discriminate Hn |].
    right. exists c, rest'. injection Hn as ->.
    repeat split; try assumption. rewrite Hconsole. reflexivity.
Qed.

Lemma playSfx_stops_at_first_failure_witness :
  hasAudioContext stopThrows = true /\
  exists done rest,
    cueCalls (currentTime stopThrows) sfx_tile = (done ++ rest)%list /\
    calls (snd (playSfx stopThrows sfx_tile silentDevice))
    = (calls silentDevice ++ done)%list /\
    ((rest = [] /\
      console (snd (playSfx stopThrows sfx_tile silentDevice))
      = console silentDevice)
     \/
     (exists c rest',
        rest = c :: rest' /\
        throws stopThrows (calls silentDevice ++ done) c = true /\
        console (snd (playSfx stopThrows sfx_tile silentDevice))
        = (console silentDevice ++ ["Audio playback failed DOMException"])%list)).
Proof.
  split; [reflexivity |].
  apply (playSfx_stops_at_first_failure stopThrows sfx_tile silentDevice).
  reflexivity.
Defined.

Lemma Qle_add_r (a b c : Q) : (a <= b)%Q -> (0 <= c)%Q -> (a <= b + c)%Q.
Proof.
  intros Hab Hc. rewrite <- (Qplus_0_r a).
  apply Qplus_le_compat; assumption.
Qed.

Ltac from_now :=
  repeat (apply Qle_add_r; [| unfold Qle; simpl; lia]);
  apply Qle_refl.

Ltac scheduled :=
  repeat (constructor;
          [cbn [scheduledFrom];
           first [exact I
                 | split; [reflexivity | from_now]
                 | from_now] |]);
  constructor.

Lemma cueCalls_scheduledFrom (now : Q) (t : SfxType) :
  Forall (scheduledFrom now) (cueCalls now t).
Proof. destruct t; unfold cueCalls, oscCalls; cbn [app]; scheduled. Qed.

Lemma scheduledFrom_earlier (from now : Q) (c : AudioCall) :
  (from <= now)%Q -> scheduledFrom now c -> scheduledFrom from c.
Proof.
  intros Hle. destruct c; cbn [scheduledFrom]; try exact (fun H => H);
    try (intros [Hv Ht]; split; [exact Hv |]);
    try intros Ht;
    eapply Qle_trans; eassumption.
Qed.

(** X18. Whatever the cue, the browser and the clock, [playSfx]
    schedules nothing before the time it read from the clock: every
    time it passes to [setValueAtTime], to a ramp, to [start] or to
    [stop] is that time or a later one, so that no time is negative
    when the clock is not. Every value it sets is above zero, and so
    is the target of every exponential ramp (the envelopes end at
    0.01, and the one ramp to zero is linear). *)
Theorem playSfx_schedules_from_now (env : AudioEnv) (t : SfxType)
    (d : Device) :
  exists done,
    calls (snd (playSfx env t d)) = (calls d ++ done)%list /\
    Forall (scheduledFrom (currentTime env)) done /\
    ((0 <= currentTime env)%Q -> Forall (scheduledFrom 0) done).
Proof.
  assert (Hdone : exists done,
             calls (snd (playSfx env t d)) = (calls d ++ done)%list /\
             Forall (scheduledFrom (currentTime env)) done).
  { destruct (hasAudioContext env) eqn:H.
    - destruct (playSfx_calls_prefix env t d H) as [done [rest [E Hcalls]]].
      exists done. split; [exact Hcalls |].
      pose proof (cueCalls_scheduledFrom (currentTime env) t) as Hwf.
      rewrite E in Hwf. apply Forall_app in Hwf. apply Hwf.
    - exists []. rewrite playSfx_no_audio by exact H.
      cbn [snd]. rewrite app_nil_r. split; [reflexivity | constructor]. }
  destruct Hdone as [done [Hcalls Hfrom]].
  exists done. split; [exact Hcalls |]. split; [exact Hfrom |].
  intros Hclock. eapply Forall_impl; [| exact Hfrom].
  intros c. apply scheduledFrom_earlier. exact Hclock.
Qed.

Lemma playSfx_schedules_from_now_witness :
  exists done,
    calls (snd (playSfx workingAudio sfx_win silentDevice))
    = (calls silentDevice ++ done)%list /\
    Forall (scheduledFrom (currentTime workingAudio)) done /\
    ((0 <= currentTime workingAudio)%Q -> Forall (scheduledFrom 0) done).
Proof.
  apply (playSfx_schedules_from_now workingAudio sfx_win silentDevice).
Defined.

(** An operation in the past, and an exponential ramp to zero, are not
    of that kind. *)
Example stop_in_the_past_not_scheduledFrom :
  ~ scheduledFrom 0 (stop (-1)) /\
  ~ scheduledFrom 0 (exponentialRampToValueAtTime gain 0 1).
Proof.
  split.
  - intros H. apply H. reflexivity.
  - intros [H _]. discriminate H.
Qed.

Lemma Qlt_add_pos (a c : Q) : (0 < c)%Q -> (a < a + c)%Q.
Proof.
  intros H. rewrite <- (Qplus_0_r a) at 1.
  apply Qplus_lt_r. exact H.
Qed.

Lemma cueCalls_startsAreStopped (now : Q) (t : SfxType) :
  startsAreStopped (cueCalls now t).
Proof.
  destruct t; cbn [startsAreStopped cueCalls oscCalls app];
    repeat split; apply Qlt_add_pos; reflexivity.
Qed.

(** X19. On a browser where no operation throws, [playSfx] leaves no
    oscillator sounding: it creates at least one, and every oscillator
    it starts is stopped by the next operation, at a strictly later
    time, so that as many are stopped as were created; nothing is
    written to the console. *)
Theorem playSfx_stops_its_oscillators (env : AudioEnv) (t : SfxType)
    (d : Device) :
  hasAudioContext env = true ->
  (forall history c, throws env history c = false) ->
  exists added,
    calls (snd (playSfx env t d)) = (calls d ++ added)%list /\
    console (snd (playSfx env t d)) = console d /\
    startsAreStopped added /\
    (0 < length (filter isCreateOscillator added))%nat /\
    length (filter isCreateOscillator added) = length (filter isStop added).
Proof.
  intros H Hnever.
  exists (cueCalls (currentTime env) t).
  destruct (callAll_spec env (cueCalls (currentTime env) t) d)
    as [done [rest [E [Hcalls [Hconsole Hcases]]]]].
  destruct Hcases as [[Hr Hn] | [c [rest' [_ [Ht _]]]]];
    [| rewrite Hnever in Ht; discriminate Ht].
  subst rest. rewrite app_nil_r in E. subst done.
  unfold playSfx, tryCatch. rewrite playSfx_try_callAll by exact H.
  destruct (callAll env (cueCalls (currentTime env) t) d) as [[[] | e] d'];
    [| discriminate Hn].
  cbn [snd] in *.
  split; [exact Hcalls |]. split; [exact Hconsole |].
  split; [apply cueCalls_startsAreStopped |].
  destruct t; cbn; split; first [lia | reflexivity].
Qed.


Lemma playSfx_stops_its_oscillators_witness :
  hasAudioContext workingAudio = true /\
  (forall history c, throws workingAudio history c = false) /\
  exists added,
    calls (snd (playSfx workingAudio sfx_win silentDevice))
    = (calls silentDevice ++ added)%list /\
    console (snd (playSfx workingAudio sfx_win silentDevice))
    = console silentDevice /\
    startsAreStopped added /\
    (0 < length (filter isCreateOscillator added))%nat /\
    length (filter isCreateOscillator added) = length (filter isStop added).
Proof.
  split; [reflexivity |]. split; [intros history c; reflexivity |].
  apply (playSfx_stops_its_oscillators workingAudio sfx_win silentDevice);
    [reflexivity | intros history c; reflexivity].
Defined.

(** The fanfare on a working browser: four oscillators, 41 operations. *)
Example fanfare_operations :
  length (calls (snd (playSfx workingAudio sfx_win silentDevice))) = 41%nat /\
  length (filter isStop
            (calls (snd (playSfx workingAudio sfx_win silentDevice))))
  = 4%nat.
Proof. split; reflexivity. Qed.


(** ** Reading the answers of the service *)

Example split_twice :
  jsSplit "data:image/png;base64,AAAA" "base64," = ["data:image/png;"; "AAAA"]
  /\ jsSplit "a--b--c" "--" = ["a"; "b"; "c"]
  /\ jsSplit "abc" "--" = ["abc"]
  /\ jsSplit "--" "--" = [EmptyString; EmptyString].
Proof. repeat split. Qed.

Lemma append_assoc (a b c : string) :
  ((a ++ b) ++ c = a ++ (b ++ c))%string.
Proof. induction a as [| x a IH]; simpl; [reflexivity | rewrite IH; reflexivity]. Qed.

Lemma prefix_nil (s : string) : prefix EmptyString s = true.
Proof. destruct s; reflexivity. Qed.

(** A separator without semicolon cannot end beyond a semicolon. *)
Lemma prefix_before_semicolon (sep m r : string) :
  Js.includes sep ";" = false ->
  prefix sep (m ++ String ";" r) = true ->
  prefix sep m = true.
Proof.
  revert m. induction sep as [| a sep IH]; intros m Hsemi H.
  - apply prefix_nil.
  - cbn [Js.includes] in Hsemi. apply orb_false_iff in Hsemi.
    destruct Hsemi as [Ha Hsep].
    destruct m as [| c m]; cbn [append prefix] in *.
    + destruct (ascii_dec a ";") as [-> | _]; [| discriminate H].
      cbn in Ha. rewrite prefix_nil in Ha. discriminate Ha.
    + destruct (ascii_dec a c); [| discriminate H].
      apply IH; assumption.
Qed.

Lemma includes_cons_false (c : ascii) (s sep : string) :
  Js.includes (String c s) sep = false ->
  prefix sep (String c s) = false /\ Js.includes s sep = false.
Proof. cbn [Js.includes]. apply orb_false_iff. Qed.

(** A string without the separator is one piece. *)
Lemma splitFrom_no_separator (sep s cur : string) :
  Js.includes s sep = false ->
  splitFrom sep 0 s cur = [(cur ++ s)%string].
Proof.
  revert cur. induction s as [| c s IH]; intros cur H.
  - cbn. 
    assert (E : (cur ++ EmptyString)%string = cur)
      by (induction cur as [| x cur IHc]; simpl; [| rewrite IHc]; reflexivity).
    rewrite E. reflexivity.
  - apply includes_cons_false in H. destruct H as [Hp Hs].
    cbn [splitFrom]. rewrite Hp. rewrite IH by exact Hs.
    rewrite append_assoc. reflexivity.
Qed.

(** No separator starts within a text without separator that a
    semicolon follows. *)
Lemma splitFrom_before_semicolon (m r cur : string) :
  Js.includes m "base64," = false ->
  splitFrom "base64," 0 (m ++ String ";" r) cur
  = splitFrom "base64," 0 r (cur ++ m ++ ";").
Proof.
  revert cur. induction m as [| c m IH]; intros cur H.
  - reflexivity.
  - apply includes_cons_false in H. destruct H as [Hp Hm].
    change (String c m ++ String ";" r)%string
      with (String c (m ++ String ";" r)).
    cbn [splitFrom].
    destruct (prefix "base64," (String c (m ++ String ";" r))) eqn:E.
    + exfalso.
      change (String c (m ++ String ";" r))
        with (String c m ++ String ";" r)%string in E.
      apply prefix_before_semicolon in E; [| reflexivity].
      congruence.
    + rewrite IH by exact Hm. rewrite append_assoc. reflexivity.
Qed.

Lemma splitFrom_at_header (d cur : string) :
  splitFrom "base64," 0 ("base64," ++ d) cur
  = cur :: splitFrom "base64," 0 d EmptyString.
Proof. cbn. rewrite prefix_nil. reflexivity. Qed.

(** X20. [imageData] undoes the data URL that [extractImage] builds:
    when neither the media type nor the data contain the text
    [base64,], the image data of the data URL of a blob is the data of
    the blob. *)
Theorem imageData_of_dataUrl (blob : Blob) (d : string) :
  data blob = Some d ->
  Js.includes (Js.showOpt (mimeType blob)) "base64," = false ->
  Js.includes d "base64," = false ->
  imageData (dataUrl blob) = Some d.
Proof.
  intros Hd Hmime Hdata. unfold imageData, dataUrl. rewrite Hd.
  cbn [Js.showOpt].
  set (mime := Js.showOpt (mimeType blob)) in *.
  assert (Hin : Js.includes ("data:" ++ mime ++ ";base64," ++ d) "base64,"
                = true).
  { apply includes_spec. exists ("data:" ++ mime ++ ";")%string, d.
    rewrite !append_assoc. reflexivity. }
  rewrite Hin. unfold jsSplit.
  change ("data:" ++ mime ++ ";base64," ++ d)%string
    with (String "d" (String "a" (String "t" (String "a" (String ":"
            (mime ++ String ";" ("base64," ++ d))))))).
  cbn [splitFrom prefix]. cbn [ascii_dec ascii_rec ascii_rect Bool.bool_dec
                               bool_rec bool_rect sumbool_rec sumbool_rect].
  rewrite splitFrom_before_semicolon by exact Hmime.
  rewrite splitFrom_at_header.
  rewrite splitFrom_no_separator by exact Hdata.
  reflexivity.
Qed.


Lemma imageData_of_dataUrl_witness :
  data {| mimeType := Some "image/png"; data := Some "iVBORw0KGgo=" |}
  = Some "iVBORw0KGgo=" /\
  Js.includes
    (Js.showOpt
       (mimeType {| mimeType := Some "image/png";
                    data := Some "iVBORw0KGgo=" |})) "base64," = false /\
  Js.includes "iVBORw0KGgo=" "base64," = false /\
  imageData
    (dataUrl {| mimeType := Some "image/png"; data := Some "iVBORw0KGgo=" |})
  = Some "iVBORw0KGgo=".
Proof.
  repeat (split; [reflexivity |]).
  apply (imageData_of_dataUrl
           {| mimeType := Some "image/png"; data := Some "iVBORw0KGgo=" |}
           "iVBORw0KGgo=");
    reflexivity.
Defined.

(** A media type that contains the marker breaks the round trip. *)
Example imageData_with_marker_in_type :
  imageData (dataUrl {| mimeType := Some "x-base64,y"; data := Some "AAAA" |})
  = Some "y;".
Proof. reflexivity. Qed.

Lemma firstInlineImage_spec (ps : list Part) (url : string) :
  firstInlineImage ps = Some url <->
  exists before part blob after,
    ps = (before ++ part :: after)%list /\
    forallb (fun p => negb (hasImage p)) before = true /\
    inlineData part = Some blob /\
    truthy (data blob) = true /\
    url = dataUrl blob.
Proof.
  induction ps as [| p ps IH].
  - split; [discriminate |].
    intros [before [part [blob [after [E _]]]]].
    destruct before; discriminate E.
  - cbn [firstInlineImage]. split.
    + destruct (inlineData p) as [blob |] eqn:Hp.
      * destruct (truthy (data blob)) eqn:Ht.
        -- intros E. injection E as <-.
           exists [], p, blob, ps. repeat split; assumption.
        -- intros E. apply IH in E.
           destruct E as [before [part [b [after [E [Hb Hrest]]]]]].
           exists (p :: before), part, b, after.
           split; [cbn; congruence |]. split; [| exact Hrest].
           cbn [forallb]. unfold hasImage at 1. rewrite Hp, Ht. exact Hb.
      * intros E. apply IH in E.
        destruct E as [before [part [b [after [E [Hb Hrest]]]]]].
        exists (p :: before), part, b, after.
        split; [cbn; congruence |]. split; [| exact Hrest].
        cbn [forallb]. unfold hasImage at 1. rewrite Hp. exact Hb.
    + intros [before [part [blob [after [E [Hb [Hi [Ht Hu]]]]]]]].
      destruct before as [| q before].
      * cbn in E. injection E as -> ->. rewrite Hi, Ht. congruence.
      * cbn in E. injection E as -> ->.
        cbn [forallb] in Hb. apply andb_true_iff in Hb.
        destruct Hb as [Hq Hb]. apply negb_true_iff in Hq.
        unfold hasImage in Hq.
        assert (Hnext : firstInlineImage (before ++ part :: after)
                        = Some url).
        { apply IH. exists before, part, blob, after.
          repeat split; assumption. }
        destruct (inlineData q) as [b |]; [rewrite Hq |]; exact Hnext.
Qed.

(** X21. [extractImage] returns the data URL of the first part of the
    first candidate that carries image data which is not empty, and
    null when there is no candidate, no content, no parts, or no such
    part: the other candidates and the parts behind are not read. *)
Theorem extractImage_finds_first_image (response : GenerateContentResponse)
    (url : string) :
  extractImage response = Some url <->
  exists candidate others c before part blob after,
    candidates response = Some (candidate :: others) /\
    candidate_content candidate = Some c /\
    parts c = Some (before ++ part :: after)%list /\
    forallb (fun p => negb (hasImage p)) before = true /\
    inlineData part = Some blob /\
    truthy (data blob) = true /\
    url = dataUrl blob.
Proof.
  unfold extractImage. split.
  - destruct (candidates response) as [[| candidate others] |] eqn:Hc;
      try discriminate.
    destruct (candidate_content candidate) as [c |] eqn:Hct;
      [| discriminate].
    destruct (parts c) as [ps |] eqn:Hps; [| discriminate].
    intros E. apply firstInlineImage_spec in E.
    destruct E as [before [part [blob [after [E Hrest]]]]].
    exists candidate, others, c, before, part, blob, after.
    split; [reflexivity |]. split; [exact Hct |].
    split; [congruence | exact Hrest].
  - intros [candidate [others [c [before [part [blob [after
             [Hc [Hct [Hps Hrest]]]]]]]]]].
    rewrite Hc, Hct, Hps. apply firstInlineImage_spec.
    exists before, part, blob, after. split; [reflexivity | exact Hrest].
Qed.

Example extractImage_sample :
  extractImage sampleAnswer = Some "data:image/png;base64,iVBORw0KGgo="
  /\ extractImage {| candidates := None |} = None
  /\ extractImage {| candidates := Some [] |} = None.
Proof. repeat split. Qed.

Lemma splitFrom_nonempty (sep : string) (s : string) :
  forall skip cur, splitFrom sep skip s cur <> [].
Proof.
  induction s as [| c s IH]; intros skip cur; cbn [splitFrom].
  - discriminate.
  - destruct skip; [| apply IH].
    destruct (prefix sep (String c s)); [discriminate | apply IH].
Qed.

Lemma splitFrom_two (sep s : string) :
  sep <> EmptyString ->
  forall cur,
    Js.includes s sep = true ->
    exists first second rest,
      splitFrom sep 0 s cur = first :: second :: rest.
Proof.
  intros Hsep. induction s as [| c s IH]; intros cur H.
  - cbn in H. destruct sep; [congruence | discriminate H].
  - cbn [Js.includes] in H. cbn [splitFrom].
    destruct (prefix sep (String c s)) eqn:E.
    + destruct (splitFrom sep (String.length sep - 1) s EmptyString)
        as [| second rest] eqn:Es.
      * exfalso. exact (splitFrom_nonempty sep s _ _ Es).
      * exists cur, second, rest. reflexivity.
    + cbn [orb] in H. apply IH. exact H.
Qed.

(** X22. [imageData] is never undefined: an image that contains the
    marker [base64,] has a second piece behind it, and an image
    without the marker is passed on as it is. *)
Theorem imageData_is_defined (base64Image : string) :
  exists d,
    imageData base64Image = Some d /\
    (Js.includes base64Image "base64," = false -> d = base64Image) /\
    (Js.includes base64Image "base64," = true ->
     exists header rest,
       jsSplit base64Image "base64," = header :: d :: rest).
Proof.
  unfold imageData.
  destruct (Js.includes base64Image "base64,") eqn:H.
  - destruct (splitFrom_two "base64," base64Image) with (cur := EmptyString)
      as [first [second [rest E]]]; [discriminate | exact H |].
    exists second. unfold jsSplit. rewrite E.
    split; [reflexivity |]. split; [discriminate |].
    intros _. exists first, rest. reflexivity.
  - exists base64Image. split; [reflexivity |].
    split; [reflexivity | discriminate].
Qed.

Lemma truthy_showOpt (s : option string) :
  truthy s = true -> Js.showOpt s <> EmptyString.
Proof. destruct s as [[| c s] |]; cbn; intros H; discriminate. Qed.

Lemma collectSources_usable (chunks : list GroundingChunk) :
  forall acc,
    Forall (fun src => uri src <> EmptyString /\
                       source_title src <> EmptyString) acc ->
    Forall (fun src => uri src <> EmptyString /\
                       source_title src <> EmptyString)
           (collectSources chunks acc) /\
    (length (collectSources chunks acc) <= length acc + length chunks)%nat.
Proof.
  induction chunks as [| chunk chunks IH]; intros acc Hacc;
    cbn [collectSources length].
  - split; [exact Hacc | lia].
  - destruct (web chunk) as [w |].
    + destruct (truthy (web_uri w)) eqn:Hu.
      * destruct (IH (acc ++ [{| source_title :=
                                   if truthy (web_title w)
                                   then Js.showOpt (web_title w)
                                   else "Source";
                                 uri := Js.showOpt (web_uri w) |}])%list)
          as [A B].
        { apply Forall_app. split; [exact Hacc |].
          constructor; [| constructor]. cbn [uri source_title].
          split; [apply truthy_showOpt; exact Hu |].
          destruct (truthy (web_title w)) eqn:Ht;
            [apply truthy_showOpt; exact Ht | discriminate]. }
        split; [exact A |]. rewrite length_app in B. cbn [length] in B. lia.
      * destruct (IH acc Hacc) as [A B]. split; [exact A | lia].
    + destruct (IH acc Hacc) as [A B]. split; [exact A | lia].
Qed.

(** X23. Every source that [generateGameConcept] records has an
    address and a title that are not empty (the title falls back to
    the word Source), and there are no more sources than grounding
    chunks in the first candidate. *)
Theorem groundingSources_are_usable (response : GenerateContentResponse) :
  Forall (fun src => uri src <> EmptyString /\
                     source_title src <> EmptyString)
         (groundingSources response) /\
  forall candidate others meta chunks,
    candidates response = Some (candidate :: others) ->
    groundingMetadata candidate = Some meta ->
    groundingChunks meta = Some chunks ->
    (length (groundingSources response) <= length chunks)%nat.
Proof.
  unfold groundingSources. split.
  - destruct (candidates response) as [[| candidate others] |];
      try constructor.
    destruct (groundingMetadata candidate) as [meta |]; [| constructor].
    destruct (groundingChunks meta) as [chunks |]; [| constructor].
    apply collectSources_usable. constructor.
  - intros candidate others meta chunks Hc Hm Hg. rewrite Hc, Hm, Hg.
    destruct (collectSources_usable chunks []) as [_ B]; [constructor |].
    exact B.
Qed.

Example groundingSources_sample :
  groundingSources sampleAnswer
  = [ {| source_title := "Source"; uri := "https://a.example" |};
      {| source_title := "B"; uri := "https://b.example" |} ].
Proof. reflexivity. Qed.


Lemma extractImage_finds_first_image_witness :
  extractImage sampleAnswer = Some "data:image/png;base64,iVBORw0KGgo=".
Proof.
  apply (proj2 (extractImage_finds_first_image sampleAnswer
                  "data:image/png;base64,iVBORw0KGgo=")).
  unfold sampleAnswer. cbn [candidates].
  eexists _, [], _,
    [ {| inlineData := None; text := Some "Here is your board." |} ],
    _, _, _.
  split; [reflexivity |]. split; [reflexivity |].
  split; [reflexivity |]. repeat split.
Defined.

Lemma imageData_is_defined_witness :
  exists d,
    imageData "data:image/png;base64,AAAA" = Some d /\
    (Js.includes "data:image/png;base64,AAAA" "base64," = false ->
     d = "data:image/png;base64,AAAA") /\
    (Js.includes "data:image/png;base64,AAAA" "base64," = true ->
     exists header rest,
       jsSplit "data:image/png;base64,AAAA" "base64," = header :: d :: rest).
Proof. apply (imageData_is_defined "data:image/png;base64,AAAA"). Defined.

Lemma groundingSources_are_usable_witness :
  Forall (fun src => uri src <> EmptyString /\
                     source_title src <> EmptyString)
         (groundingSources sampleAnswer).
Proof. apply (groundingSources_are_usable sampleAnswer). Defined.

(** ** What is drawn *)

(** X24. Every space drawn has a background colour: the start is green
    and the finish amber whatever the design says, and a space in
    between has the colour of its tile, or grey when it has no tile or
    the colour of the tile is empty. *)
Theorem every_space_has_a_background (design : GameDesign) (k : nat)
    (sp : BoardSpace) :
  nth_error (spaces design) k = Some sp ->
  spaceBackground sp (Z.of_nat k) <> EmptyString /\
  (k = 0%nat -> spaceBackground sp (Z.of_nat k) = "#10b981") /\
  (k = 23%nat -> spaceBackground sp (Z.of_nat k) = "#f59e0b") /\
  (forall tile,
     tileAt design (Z.of_nat k) = Some tile ->
     color tile <> EmptyString ->
     spaceBackground sp (Z.of_nat k) = color tile) /\
  (0 < Z.of_nat k < 23 ->
   (forall tile, tileAt design (Z.of_nat k) = Some tile ->
                 color tile = EmptyString) ->
   spaceBackground sp (Z.of_nat k) = "#cbd5e1").
Proof.
  intros H. destruct (nth_error_spaces design k sp H) as [-> Hk].
  assert (Hat : tileAt design (Z.of_nat k)
                = tileDetails (space design (Z.of_nat k))).
  { unfold tileAt. rewrite spaces_at by (unfold TOTAL_SPACES; lia).
    reflexivity. }
  rewrite Hat. unfold spaceBackground.
  split; [| split; [| split; [| split]]].
  - destruct (tileDetails (space design (Z.of_nat k))) as [tile |];
      cbn [option_map truthy].
    + destruct (color tile) as [| c rest] eqn:Ec; cbn [Js.showOpt].
      * destruct (Z.of_nat k =? 0); [discriminate |].
        destruct (Z.of_nat k =? TOTAL_SPACES - 1); discriminate.
      * discriminate.
    + destruct (Z.of_nat k =? 0); [discriminate |].
      destruct (Z.of_nat k =? TOTAL_SPACES - 1); discriminate.
  - intros ->. reflexivity.
  - intros ->. reflexivity.
  - intros tile Ht Hc. rewrite Ht. cbn [option_map truthy Js.showOpt].
    destruct (color tile); [congruence | reflexivity].
  - intros Hin Hempty.
    destruct (tileDetails (space design (Z.of_nat k))) as [tile |];
      cbn [option_map truthy].
    + rewrite (Hempty tile eq_refl).
      destruct (Z.eqb_spec (Z.of_nat k) 0); [lia |].
      destruct (Z.eqb_spec (Z.of_nat k) (TOTAL_SPACES - 1)) as [E | _];
        [unfold TOTAL_SPACES in E; lia | reflexivity].
    + destruct (Z.eqb_spec (Z.of_nat k) 0); [lia |].
      destruct (Z.eqb_spec (Z.of_nat k) (TOTAL_SPACES - 1)) as [E | _];
        [unfold TOTAL_SPACES in E; lia | reflexivity].
Qed.

Lemma every_space_has_a_background_witness :
  nth_error (spaces cleanStreets) 4 = Some (space cleanStreets 4) /\
  spaceBackground (space cleanStreets 4) (Z.of_nat 4) = "#00ff00".
Proof.
  split; [reflexivity |].
  destruct (every_space_has_a_background cleanStreets 4 (space cleanStreets 4))
    as [_ [_ [_ [Htile _]]]]; [reflexivity |].
  apply (Htile recycle); [reflexivity | discriminate].
Defined.

(** X25. A card type of any index 0 or more gets a theme, never an
    undefined one, and the themes come back every four card types. *)
Theorem every_card_has_a_theme (index : Z) :
  0 <= index ->
  exists t,
    theme index = Some t /\
    In t colors /\
    theme (index + 4) = Some t.
Proof.
  intros H. unfold theme, Js.rem.
  change (Z.of_nat (length colors)) with 4. cbn [Z.eqb].
  rewrite !Z.rem_mod_nonneg by lia.
  replace ((index + 4) mod 4) with (index mod 4)
    by (rewrite <- (Z.mul_1_l 4) at 2; rewrite Z_mod_plus_full; reflexivity).
  pose proof (Z.mod_pos_bound index 4) as Hm.
  unfold Js.at_.
  destruct (Z.ltb_spec (index mod 4) 0) as [? | _]; [lia |].
  destruct (nth_error colors (Z.to_nat (index mod 4))) as [t |] eqn:E.
  - exists t. split; [reflexivity |]. split; [| reflexivity].
    apply nth_error_In in E. exact E.
  - apply nth_error_None in E. cbn [length colors] in E. lia.
Qed.

Lemma every_card_has_a_theme_witness :
  0 <= 5 /\
  exists t,
    theme 5 = Some t /\
    In t colors /\
    theme (5 + 4) = Some t.
Proof. split; [lia |]. apply (every_card_has_a_theme 5). lia. Defined.

(** Below zero there is no theme: the index has to be one of an array. *)
Example no_theme_below_zero : theme (-1) = None.
Proof. reflexivity. Qed.


(** ** A card drawn while the dice are rolling *)

(** X26. The second half of a roll leaves the drawn card as it is: a
    card drawn while the dice were rolling (after the click took the
    previous card away) is still the drawn card when the token has
    moved. *)
Theorem card_drawn_while_rolling_stays (design : GameDesign)
    (env : AudioEnv) (soundEnabled : bool) (l l' : Loop) (g : GameState)
    (ms : Z) (u1 u2 : Q) :
  nth_error (queue l) 0 = Some (task_resume g, ms) ->
  step design env soundEnabled l (timer_fires 0 u1 u2) = Some l' ->
  drawnCard (w_gameState (store l')) = drawnCard (w_gameState (store l)) /\
  turn (w_gameState (store l')) = turn (w_gameState (store l)) + 1 /\
  w_isRolling (store l') = false.
Proof.
  intros Hhead Hstep. cbn [step] in Hstep. unfold mayFire in Hstep.
  rewrite Hhead in Hstep. cbn [firstn forallb runTask] in Hstep.
  injection Hstep as <-.
  destruct (handleRoll_resume_run design env soundEnabled g u1 u2 (store l))
    as [w' [Hrun [Rr [Rt [Rd _]]]]].
  rewrite Hrun. cbn [snd register store w_gameState w_isRolling].
  repeat split; assumption.
Qed.

Example drawWhileRolling_state :
  (drawnCard (w_gameState (store (afterEvents drawWhileRolling))),
   w_isRolling (store (afterEvents drawWhileRolling)),
   map snd (queue (afterEvents drawWhileRolling)))
  = (Some {| drawn_type := "B"; content := Some "b1" |}, true, [600]).
Proof. vm_compute. reflexivity. Qed.

Lemma card_drawn_while_rolling_stays_witness :
  exists g l',
    nth_error (queue (afterEvents drawWhileRolling)) 0
    = Some (task_resume g, 600) /\
    step cleanStreets stopThrows true (afterEvents drawWhileRolling)
      (timer_fires 0 (5 # 6) (9 # 10)) = Some l' /\
    drawnCard (w_gameState (store l'))
    = Some {| drawn_type := "B"; content := Some "b1" |} /\
    w_isRolling (store l') = false.
Proof.
  eexists. eexists.
  split; [vm_compute; reflexivity |].
  split; [vm_compute; reflexivity |].
  match goal with
  | |- drawnCard (w_gameState (store ?l2)) = _ /\ _ =>
      destruct (card_drawn_while_rolling_stays cleanStreets stopThrows true
                  (afterEvents drawWhileRolling) l2
                  {| playerPosition := 6;
                     log := ["📍 Landed on Recycle: Draw a card";
                             "🎲 Rolled a 6. Moved to space 7.";
                             "Welcome to the Playtest! Roll the dice to begin."];
                     turn := 2;
                     isGameOver := false;
                     currentEffect := Some "Draw a card";
                     drawnCard := None |}
                  600 (5 # 6) (9 # 10))
        as [A [_ C]];
        [vm_compute; reflexivity | vm_compute; reflexivity |];
      split; [rewrite A; vm_compute; reflexivity | exact C]
  end.
Defined.
